(** * A shallow embedding of the core of osxcollector.py

    The development models the pieces of [src/osxcollector/osxcollector.py]
    that turn raw plist / sqlite values into JSON lines: [DictUtils.get_deep],
    the timestamp heuristics ([_value_to_datetime] and its four decorated
    candidates), [_normalize_val], the [Logger] class with its [Extra]
    context manager, and [_hash_file].

    Python 2 values are an inductive type [pyval]; a call that may raise
    returns a [res], either [Ok v] or [Exc e] for a Python exception [e]. *)

From Stdlib Require Import ZArith List String Ascii Bool Lia.
Import ListNotations.
Open Scope Z_scope.
Set Warnings "-register-all".

(** ** Python values *)

(** Python 2 values as they reach the collector.  [PStr] is a byte string
    ([str]); [PUni] is a [unicode] object, a list of code points; [PBuffer]
    is a [buffer] over bytes (sqlite BLOB columns); [PNSArray], [PNSDict],
    [PNSData] and [PNSDate] are the PyObjC proxies of the Foundation classes
    found in plists; [PObj] is any other object, by class name.  Dicts are
    association lists in key order, with distinct keys.  A [float] (sqlite
    REAL columns, plist reals) is [PFloat], by the decimal number its
    [repr] prints. *)

(** A Python [float]: [FFin neg m e] is the finite double
    (-1)^neg * m * 10^e, [m] being the shortest digit string that reads
    back as that double (trailing zeros of [m] are immaterial); [FInf neg]
    is [inf] or [-inf]; [FNaN] is [nan]. *)
Inductive pyfloat : Type :=
| FNaN
| FInf (neg : bool)
| FFin (neg : bool) (m : N) (e : Z).

Inductive pyval : Type :=
| PNone
| PBool (b : bool)
| PInt (z : Z)
| PFloat (x : pyfloat)
| PStr (s : string)
| PUni (cs : list Z)
| PBuffer (bs : string)
| PList (l : list pyval)
| PDict (kv : list (pyval * pyval))
| PNSArray (l : list pyval)
| PNSDict (kv : list (pyval * pyval))
| PNSData (bs : string)
| PNSDate (secs : Z)
| PObj (cls : string).

(** The Python exceptions the modelled code can raise or catch. *)
Inductive exn : Type :=
| KeyError | TypeError | ValueError | IndexError | AttributeError
| UnicodeDecodeError | UnicodeEncodeError | OverflowError | IOError
| RuntimeError.

Definition exn_eqb (a b : exn) : bool :=
  match a, b with
  | KeyError, KeyError | TypeError, TypeError | ValueError, ValueError
  | IndexError, IndexError | AttributeError, AttributeError
  | UnicodeDecodeError, UnicodeDecodeError
  | UnicodeEncodeError, UnicodeEncodeError
  | OverflowError, OverflowError | IOError, IOError
  | RuntimeError, RuntimeError => true
  | _, _ => false
  end.

(** Outcome of a Python call: a value, or a raised exception. *)
Inductive res (A : Type) : Type :=
| Ok (a : A)
| Exc (e : exn).
Arguments Ok {A} a.
Arguments Exc {A} e.

Definition bind {A B} (r : res A) (k : A -> res B) : res B :=
  match r with Ok a => k a | Exc e => Exc e end.

Notation "x <- r ;; k" := (bind r (fun x => k))
  (at level 61, r at next level, right associativity).

(** ** Small helpers on bytes and code points *)

Definition codes_of_string (s : string) : list Z :=
  map (fun a => Z.of_nat (nat_of_ascii a)) (list_ascii_of_string s).

Definition string_of_codes (cs : list Z) : string :=
  string_of_list_ascii (map (fun c => ascii_of_nat (Z.to_nat c)) cs).

Definition all_ascii (cs : list Z) : bool :=
  forallb (fun c => (0 <=? c) && (c <? 128)) cs.

(** ASCII case folding, as [str.lower] does in the C locale. *)
Definition lower_code (c : Z) : Z :=
  if (65 <=? c) && (c <=? 90) then c + 32 else c.

(** [unicode.lower()] on one code point (Python 2.7's simple case mapping,
    one code point to one), as far as its ASCII result goes: besides A-Z,
    the only code points whose lowercase is ASCII are U+0130 (to 'i') and
    U+212A KELVIN SIGN (to 'k').  Other non-ASCII code points are kept as
    they are, their lowercase being non-ASCII too, which is all the
    timestamp-hint test below can observe. *)
Definition lower_uni (c : Z) : Z :=
  if c =? 304 then 105 else if c =? 8490 then 107 else lower_code c.

Fixpoint prefixb (p l : list Z) : bool :=
  match p, l with
  | [], _ => true
  | x :: p', y :: l' => (x =? y) && prefixb p' l'
  | _ :: _, [] => false
  end.

(** [-1 != s.find(sub)]: [sub] occurs in [s]. *)
Fixpoint containsb (s sub : list Z) : bool :=
  prefixb sub s || match s with [] => false | _ :: s' => containsb s' sub end.

(** Python truthiness ([bool(v)]). *)
Definition truthy (v : pyval) : bool :=
  match v with
  | PNone => false
  | PBool b => b
  | PInt z => negb (z =? 0)
  | PFloat (FFin _ m _) => negb (N.eqb m 0)
  | PStr s => negb (String.eqb s EmptyString)
  | PUni cs => match cs with [] => false | _ => true end
  | PList l => match l with [] => false | _ => true end
  | PBuffer s => negb (String.eqb s EmptyString)
  | PDict kv | PNSDict kv => match kv with [] => false | _ => true end
  | PNSArray l => match l with [] => false | _ => true end
  | _ => true
  end.

(** ** Subscription and [int()] *)

Fixpoint codes_eqb (x y : list Z) : bool :=
  match x, y with
  | [], [] => true
  | a :: x', b :: y' => (a =? b) && codes_eqb x' y'
  | _, _ => false
  end.

(** Dict keys up to Python equality: [None], numbers ([True == 1]), text
    ([str] and [unicode] agree on ASCII), and byte strings that are not
    ASCII.  Objects compared by identity (proxies, buffers, dates, other
    objects) have no normal form and never equal a path segment; so has
    [nan], which equals nothing.  An integral float equals the int of the
    same value; other floats are kept as reduced fractions. *)
(** The sign of a float as a factor. *)
Definition fsign (neg : bool) : Z := if neg then -1 else 1.

(** A finite float truncated towards zero ([int(x)]), exactly. *)
Definition ftrunc (neg : bool) (m : N) (e : Z) : Z :=
  fsign neg * (if 0 <=? e then Z.of_N m * 10 ^ e else Z.of_N m / 10 ^ (- e)).

(** Whether a finite float holds an integer. *)
Definition fintegral (m : N) (e : Z) : bool :=
  (0 <=? e) || (Z.of_N m mod 10 ^ (- e) =? 0).

Inductive keynf : Type :=
| KNone
| KNum (z : Z)
| KFrac (p q : Z)
| KInf (neg : bool)
| KText (cs : list Z)
| KBytes (s : string).

Definition knf (v : pyval) : option keynf :=
  match v with
  | PNone => Some KNone
  | PInt z => Some (KNum z)
  | PFloat FNaN => None
  | PFloat (FInf neg) => Some (KInf neg)
  | PFloat (FFin neg m e) =>
      if fintegral m e then Some (KNum (ftrunc neg m e))
      else let p := fsign neg * Z.of_N m in
           let q := 10 ^ (- e) in
           Some (KFrac (p / Z.gcd p q) (q / Z.gcd p q))
  | PBool b => Some (KNum (if b then 1 else 0))
  | PStr s => let cs := codes_of_string s in
              if all_ascii cs then Some (KText cs) else Some (KBytes s)
  | PUni cs => Some (KText cs)
  | _ => None
  end.

Definition keynf_eqb (x y : keynf) : bool :=
  match x, y with
  | KNone, KNone => true
  | KNum a, KNum b => a =? b
  | KFrac a b, KFrac c d => (a =? c) && (b =? d)
  | KInf a, KInf b => Bool.eqb a b
  | KText a, KText b => codes_eqb a b
  | KBytes a, KBytes b => String.eqb a b
  | _, _ => false
  end.

(** [a == b] on dict keys. *)
Definition key_eqb (a b : pyval) : bool :=
  match knf a, knf b with
  | Some x, Some y => keynf_eqb x y
  | _, _ => false
  end.

Definition hashable (v : pyval) : bool :=
  match v with PList _ | PDict _ => false | _ => true end.

Fixpoint dict_get (kv : list (pyval * pyval)) (k : pyval) : option pyval :=
  match kv with
  | [] => None
  | (k', v) :: kv' => if key_eqb k' k then Some v else dict_get kv' k
  end.

(** Sequence indexing, negative indices counting from the end. *)
Definition seq_index {A} (l : list A) (i : Z) : res A :=
  let n := Z.of_nat (List.length l) in
  let j := if i <? 0 then i + n else i in
  if (0 <=? j) && (j <? n) then
    match nth_error l (Z.to_nat j) with Some a => Ok a | None => Exc IndexError end
  else Exc IndexError.

Definition index_of (v : pyval) : option Z :=
  match v with
  | PInt z => Some z
  | PBool b => Some (if b then 1 else 0)
  | _ => None
  end.

(** [x[link]]. *)
Definition getitem (x link : pyval) : res pyval :=
  match x with
  | PDict kv | PNSDict kv =>
      if hashable link then
        match dict_get kv link with Some v => Ok v | None => Exc KeyError end
      else Exc TypeError
  | PList l | PNSArray l =>
      match index_of link with Some i => seq_index l i | None => Exc TypeError end
  | PStr s | PBuffer s =>
      match index_of link with
      | Some i => c <- seq_index (list_ascii_of_string s) i ;; Ok (PStr (String c EmptyString))
      | None => Exc TypeError
      end
  | PUni cs =>
      match index_of link with
      | Some i => c <- seq_index cs i ;; Ok (PUni [c])
      | None => Exc TypeError
      end
  | _ => Exc TypeError
  end.

Definition is_space (c : Z) : bool :=
  (c =? 32) || ((9 <=? c) && (c <=? 13)).

Definition is_digit (c : Z) : bool := (48 <=? c) && (c <=? 57).

Fixpoint drop_while (p : Z -> bool) (cs : list Z) : list Z :=
  match cs with
  | c :: cs' => if p c then drop_while p cs' else cs
  | [] => []
  end.

(** [s.strip()] on ASCII white space. *)
Definition strip (cs : list Z) : list Z :=
  rev (drop_while is_space (rev (drop_while is_space cs))).

Fixpoint digits_value (acc : Z) (cs : list Z) : option Z :=
  match cs with
  | [] => Some acc
  | c :: cs' => if is_digit c then digits_value (10 * acc + (c - 48)) cs' else None
  end.

(** The decimal literal accepted by [int(s)]: surrounding white space, an
    optional sign, then at least one ASCII digit. *)
Definition parse_int (cs : list Z) : option Z :=
  match strip cs with
  | 45 :: (_ :: _) as ds => option_map Z.opp (digits_value 0 ds)
  | 43 :: (_ :: _) as ds => digits_value 0 ds
  | (_ :: _) as ds => digits_value 0 ds
  | [] => None
  end.

(** [int(v)]: a float is truncated towards zero; [int(nan)] raises
    [ValueError] and [int(inf)] [OverflowError]. *)
Definition py_int (v : pyval) : res Z :=
  match v with
  | PInt z => Ok z
  | PBool b => Ok (if b then 1 else 0)
  | PFloat FNaN => Exc ValueError
  | PFloat (FInf _) => Exc OverflowError
  | PFloat (FFin neg m e) => Ok (ftrunc neg m e)
  | PStr s => match parse_int (codes_of_string s) with Some z => Ok z | None => Exc ValueError end
  | PUni cs => match parse_int cs with Some z => Ok z | None => Exc ValueError end
  | _ => Exc TypeError
  end.

(** ** [DictUtils] *)
Module DictUtils.

(** [s.split('.')] on a list of code points. *)
Fixpoint split_dot (cs : list Z) : list (list Z) :=
  match cs with
  | [] => [[]]
  | c :: cs' =>
      if c =? 46 then [] :: split_dot cs'
      else match split_dot cs' with
           | w :: ws => (c :: w) :: ws
           | [] => [[c]]
           end
  end.

(** [_link_path_to_chain]: [''] gives [[]], a list is used as it is, any
    other value is split on ['.'] (an [AttributeError] when it has no
    [split]). *)
Definition _link_path_to_chain (path : pyval) : res (list pyval) :=
  if key_eqb path (PStr "") then Ok []
  else match path with
       | PList l => Ok l
       | PStr s => Ok (map (fun w => PStr (string_of_codes w)) (split_dot (codes_of_string s)))
       | PUni cs => Ok (map PUni (split_dot cs))
       | _ => Exc AttributeError
       end.

(** One iteration of the loop:
    [try: x = x[link]] [except (KeyError, TypeError): x = x[int(link)]]. *)
Definition step (x link : pyval) : res pyval :=
  match getitem x link with
  | Ok v => Ok v
  | Exc KeyError | Exc TypeError => i <- py_int link ;; getitem x (PInt i)
  | Exc e => Exc e
  end.

Fixpoint walk (x : pyval) (chain : list pyval) : res pyval :=
  match chain with
  | [] => Ok x
  | link :: chain' => x' <- step x link ;; walk x' chain'
  end.

(** [_get_deep_by_chain]: the outer [try] turns [KeyError], [TypeError]
    and [ValueError] into [default]; other exceptions propagate. *)
Definition _get_deep_by_chain (x : pyval) (chain : list pyval) (default : pyval) : res pyval :=
  match chain with
  | [] => Ok default
  | _ =>
      match walk x chain with
      | Ok v => Ok v
      | Exc KeyError | Exc TypeError | Exc ValueError => Ok default
      | Exc e => Exc e
      end
  end.

Definition get_deep (x path default : pyval) : res pyval :=
  chain <- _link_path_to_chain path ;; _get_deep_by_chain x chain default.

End DictUtils.

(** ** Naive datetimes

    A naive [datetime] is its number of microseconds since
    1970-01-01 00:00:00; a [timedelta] is a number of microseconds. *)

Definition us_per_s : Z := 1000000.
Definition us_per_day : Z := 86400 * us_per_s.

(** Days from 1970-01-01 to the civil date [y-m-d] (proleptic Gregorian). *)
Definition days_from_civil (y m d : Z) : Z :=
  let y' := if m <=? 2 then y - 1 else y in
  let era := y' / 400 in
  let yoe := y' - era * 400 in
  let doy := (153 * (if 2 <? m then m - 3 else m + 9) + 2) / 5 + d - 1 in
  let doe := yoe * 365 + yoe / 4 - yoe / 100 + doy in
  era * 146097 + doe - 719468.

(** The civil date [(y, m, d)] of a day number. *)
Definition civil_from_days (z : Z) : Z * Z * Z :=
  let z' := z + 719468 in
  let era := z' / 146097 in
  let doe := z' - era * 146097 in
  let yoe := (doe - doe / 1460 + doe / 36524 - doe / 146096) / 365 in
  let y := yoe + era * 400 in
  let doy := doe - (365 * yoe + yoe / 4 - yoe / 100) in
  let mp := (5 * doy + 2) / 153 in
  let d := doy - (153 * mp + 2) / 5 + 1 in
  let m := if mp <? 10 then mp + 3 else mp - 9 in
  (if m <=? 2 then y + 1 else y, m, d).

Definition dt_of_civil (y m d : Z) : Z := days_from_civil y m d * us_per_day.

(** [datetime.year]. *)
Definition year (dt : Z) : Z :=
  let '(y, _, _) := civil_from_days (dt / us_per_day) in y.

(** [datetime.min] and [datetime.max]. *)
Definition dt_min : Z := dt_of_civil 1 1 1.
Definition dt_max : Z := dt_of_civil 10000 1 1 - 1.

Definition DATETIME_2001 : Z := dt_of_civil 2001 1 1.
Definition DATETIME_1970 : Z := dt_of_civil 1970 1 1.
Definition DATETIME_1601 : Z := dt_of_civil 1601 1 1.
Definition MIN_YEAR : Z := 2004.

(** A [timedelta] of [us] microseconds: [OverflowError] beyond
    999999999 days. *)
Definition timedelta (us : Z) : res Z :=
  if Z.abs (us / us_per_day) <=? 999999999 then Ok us else Exc OverflowError.

(** [dt + td] for a datetime and a timedelta. *)
Definition dt_add (dt td : Z) : res Z :=
  if (dt_min <=? dt + td) && (dt + td <=? dt_max) then Ok (dt + td)
  else Exc OverflowError.

(** Zero-padded decimal rendering. *)
Fixpoint digits_rev (fuel : nat) (n : Z) : list ascii :=
  match fuel with
  | O => []
  | S f => ascii_of_nat (Z.to_nat (n mod 10 + 48)) ::
           (if n <? 10 then [] else digits_rev f (n / 10))
  end.

Definition pad (w : nat) (n : Z) : string :=
  let ds := rev (digits_rev (S (Z.to_nat (Z.log2 n))) n) in
  string_of_list_ascii (repeat "0"%char (w - List.length ds) ++ ds).

(** [dt.strftime('%Y-%m-%d %H:%M:%S')]; Python 2 refuses years before 1900. *)
Definition strftime_ymdhms (dt : Z) : res string :=
  let days := dt / us_per_day in
  let secs := (dt mod us_per_day) / us_per_s in
  let '(y, m, d) := civil_from_days days in
  if y <? 1900 then Exc ValueError
  else Ok (pad 4 y ++ "-" ++ pad 2 m ++ "-" ++ pad 2 d ++ " " ++
           pad 2 (secs / 3600) ++ ":" ++ pad 2 ((secs mod 3600) / 60) ++ ":" ++
           pad 2 (secs mod 60))%string.

(** [_datetime_to_string]: [None] when [strftime] raises. *)
Definition _datetime_to_string (dt : Z) : option string :=
  match strftime_ymdhms dt with Ok s => Some s | Exc _ => None end.

(** ** [repr()]

    [repr] of the Python values, used by [_normalize_val] as its fallback
    string.  Object reprs that print a memory address ([buffer], other
    objects) and the Cocoa descriptions of the Foundation proxies are
    rendered without the address. *)

Definition hex_digit (n : Z) : ascii :=
  ascii_of_nat (Z.to_nat (if n <? 10 then n + 48 else n + 87)).

Fixpoint hex_rev (fuel : nat) (n : Z) : list ascii :=
  match fuel with
  | O => []
  | S f => hex_digit (n mod 16) :: (if n <? 16 then [] else hex_rev f (n / 16))
  end.

Definition hex_pad (w : nat) (n : Z) : string :=
  let ds := rev (hex_rev (S (Z.to_nat (Z.log2 n))) n) in
  string_of_list_ascii (repeat "0"%char (w - List.length ds) ++ ds).

(** [str(n)] of an integer. *)
Definition dec (n : Z) : string :=
  if n <? 0 then ("-" ++ pad 1 (- n))%string else pad 1 n.

(** One character of a quoted literal; [q] is the quote in use. *)
Definition escape_code (q c : Z) : string :=
  if c =? 92 then "\\"
  else if c =? q then String "\"%char (String (ascii_of_nat (Z.to_nat c)) EmptyString)
  else if c =? 9 then "\t"
  else if c =? 10 then "\n"
  else if c =? 13 then "\r"
  else if (32 <=? c) && (c <? 127) then String (ascii_of_nat (Z.to_nat c)) EmptyString
  else if c <? 256 then ("\x" ++ hex_pad 2 c)%string
  else if c <? 65536 then ("\u" ++ hex_pad 4 c)%string
  else ("\U" ++ hex_pad 8 c)%string.

(** Python 2 quoting: single quotes, unless the text holds a single quote
    and no double quote. *)
Definition quote (cs : list Z) : string :=
  let q := if existsb (Z.eqb 39) cs && negb (existsb (Z.eqb 34) cs) then 34 else 39 in
  let qs := String (ascii_of_nat (Z.to_nat q)) EmptyString in
  (qs ++ concat "" (map (escape_code q) cs) ++ qs)%string.

(** Trailing zeros of [m] moved into the exponent. *)
Fixpoint strip_zeros (fuel : nat) (m e : Z) : Z * Z :=
  match fuel with
  | O => (m, e)
  | S f => if (0 <? m) && (m mod 10 =? 0) then strip_zeros f (m / 10) (e + 1) else (m, e)
  end.

(** [repr(x)] of a float: the shortest digits [ds] of [x], the decimal
    point after [decpt] of them; exponent notation when [decpt <= -4] or
    [decpt > 16], otherwise positional notation with [.0] added to an
    integral value. *)
Definition float_repr (x : pyfloat) : string :=
  match x with
  | FNaN => "nan"
  | FInf neg => if neg then "-inf" else "inf"
  | FFin neg m e =>
      let sign := if neg then "-"%string else ""%string in
      let '(m', e') := strip_zeros (S (Z.to_nat (Z.log2 (Z.of_N m)))) (Z.of_N m) e in
      if m' =? 0 then (sign ++ "0.0")%string
      else
        let ds := pad 1 m' in
        let n := String.length ds in
        let decpt := Z.of_nat n + e' in
        if (decpt <=? -4) || (16 <? decpt) then
          let ex := decpt - 1 in
          let esign := if ex <? 0 then "-"%string else "+"%string in
          let frac := if (1 <? n)%nat then ("." ++ substring 1 (n - 1) ds)%string else ""%string in
          (sign ++ substring 0 1 ds ++ frac ++ "e" ++ esign ++ pad 2 (Z.abs ex))%string
        else if decpt <=? 0 then
          (sign ++ "0." ++ string_of_list_ascii (repeat "0"%char (Z.to_nat (- decpt))) ++ ds)%string
        else if decpt <? Z.of_nat n then
          (sign ++ substring 0 (Z.to_nat decpt) ds ++ "." ++
           substring (Z.to_nat decpt) (n - Z.to_nat decpt) ds)%string
        else
          (sign ++ ds ++ string_of_list_ascii (repeat "0"%char (Z.to_nat decpt - n)) ++ ".0")%string
  end.

Definition repr_int (z : Z) : string :=
  if (- 2 ^ 63 <=? z) && (z <? 2 ^ 63) then dec z else (dec z ++ "L")%string.

Fixpoint py_repr (v : pyval) : string :=
  match v with
  | PNone => "None"
  | PBool true => "True"
  | PBool false => "False"
  | PInt z => repr_int z
  | PFloat x => float_repr x
  | PStr s => quote (codes_of_string s)
  | PUni cs => ("u" ++ quote cs)%string
  | PBuffer bs => ("<read-only buffer, size " ++ dec (Z.of_nat (String.length bs)) ++ ", offset 0>")%string
  | PList l => ("[" ++ concat ", " (map py_repr l) ++ "]")%string
  | PDict kv =>
      ("{" ++ concat ", " (map (fun '(k, x) => py_repr k ++ ": " ++ py_repr x) kv) ++ "}")%string
  | PNSArray l => ("(" ++ concat ", " (map py_repr l) ++ ")")%string
  | PNSDict kv =>
      ("{" ++ concat " " (map (fun '(k, x) => py_repr k ++ " = " ++ py_repr x ++ ";") kv) ++ "}")%string
  | PNSData bs => ("<NSData " ++ dec (Z.of_nat (String.length bs)) ++ " bytes>")%string
  | PNSDate secs => ("<NSDate " ++ dec secs ++ ">")%string
  | PObj cls => ("<" ++ cls ++ " object>")%string
  end.

(** ** Timestamp heuristics

    The clock and the time zone are those of the machine: [now_us] is what
    [datetime.now()] returns during the run (no time elapses between the
    calls), and [local_of_utc t] is the naive local wall clock, in seconds
    since 1970, of the instant [t] seconds after the epoch ([localtime] as
    used by [datetime.fromtimestamp]), or the exception it raises.

    Floating point is kept abstract: [FloatV] are Python floats,
    [float_of_text] is [float(s)] on text, and [float_delta_us unit f] the
    microseconds of [timedelta(seconds=f)] ([unit] = 10^6) or
    [timedelta(microseconds=f)] ([unit] = 1), rounding included;
    [float_of_py x] is the float [PFloat x] holds. *)
Section Timestamps.
Variable now_us : Z.
Variable local_of_utc : Z -> res Z.
Variable FloatV : Type.
Variable float_of_text : list Z -> res FloatV.
Variable float_delta_us : Z -> FloatV -> res Z.
Variable float_of_py : pyfloat -> FloatV.

(** A numeric argument of the converters: a Python [int] (bools count as
    ints) or a float. *)
Inductive pynum : Type :=
| NumInt (z : Z)
| NumFloat (f : FloatV).

(** [timedelta(<unit>=val)]; [None] stands for an argument [timedelta]
    rejects with [TypeError]. *)
Definition delta (unit : Z) (val : option pynum) : res Z :=
  match val with
  | Some (NumInt z) => timedelta (unit * z)
  | Some (NumFloat f) => us <- float_delta_us unit f ;; timedelta us
  | None => Exc TypeError
  end.

(** [datetime.fromtimestamp(t)]. *)
Definition fromtimestamp (t : Z) : res Z :=
  l <- local_of_utc t ;;
  let dt := l * us_per_s in
  if (dt_min <=? dt) && (dt <=? dt_max) then Ok dt else Exc ValueError.

(** [_convert_to_local]: [calendar.timegm(dt.timetuple())] drops the
    microseconds, then [fromtimestamp]. *)
Definition _convert_to_local (dt : Z) : res Z :=
  fromtimestamp (dt / us_per_s).

(** [_timestamp_errorhandling] around a decorated converter. *)
Definition _timestamp_errorhandling (r : res Z) : option Z :=
  match r with
  | Ok dt =>
      match dt_add now_us us_per_day with
      | Ok tomorrow =>
          if (year dt <? MIN_YEAR) || (tomorrow <? dt) then None else Some dt
      | Exc _ => None
      end
  | Exc _ => None
  end.

(** The four decorated converters: [epoch + timedelta(unit=val)], shifted
    to local time, then filtered. *)
Definition converter (epoch unit : Z) (val : option pynum) : option Z :=
  _timestamp_errorhandling
    (td <- delta unit val ;; dt <- dt_add epoch td ;; _convert_to_local dt).

Definition _seconds_since_2001_to_datetime := converter DATETIME_2001 us_per_s.
Definition _seconds_since_epoch_to_datetime := converter DATETIME_1970 us_per_s.
Definition _microseconds_since_epoch_to_datetime := converter DATETIME_1970 1.
Definition _microseconds_since_1601_to_datetime := converter DATETIME_1601 1.

(** Python's [a or b] on optional datetimes (a datetime is always true). *)
Definition py_or (a b : option Z) : option Z :=
  match a with Some _ => a | None => b end.

(** The argument the converters receive for a non-text value. *)
Definition num_arg (v : pyval) : option pynum :=
  match v with
  | PInt z => Some (NumInt z)
  | PBool b => Some (NumInt (if b then 1 else 0))
  | PFloat x => Some (NumFloat (float_of_py x))
  | _ => None
  end.

Definition text_codes (v : pyval) : option (list Z) :=
  match v with
  | PStr s => Some (codes_of_string s)
  | PUni cs => Some cs
  | _ => None
  end.

(** The four converters in the order of [_value_to_datetime]. *)
Definition convert_all (a : option pynum) : option Z :=
  py_or (_microseconds_since_epoch_to_datetime a)
    (py_or (_microseconds_since_1601_to_datetime a)
       (py_or (_seconds_since_epoch_to_datetime a)
          (_seconds_since_2001_to_datetime a))).

(** [_value_to_datetime]: text goes through [float()] first. *)
Definition _value_to_datetime (val : pyval) : option Z :=
  match text_codes val with
  | Some cs =>
      match float_of_text cs with
      | Ok f => convert_all (Some (NumFloat f))
      | Exc _ => None
      end
  | None => convert_all (num_arg val)
  end.

(** ** [_normalize_val] *)

Definition hints : list (list Z) :=
  [codes_of_string "time"; codes_of_string "utc"; codes_of_string "date";
   codes_of_string "accessed"].

(** [key and any([-1 != key.lower().find(hint) for hint in hints])]:
    [key.lower()] raises [AttributeError] on a true non-text key. *)
Definition hint_check (key : pyval) : res bool :=
  if truthy key then
    match key with
    | PStr s => Ok (existsb (containsb (map lower_code (codes_of_string s))) hints)
    | PUni cs => Ok (existsb (containsb (map lower_uni cs)) hints)
    | _ => Exc AttributeError
    end
  else Ok false.

(** [unicode(buf).decode('utf-16le', errors='ignore')] once [unicode(buf)]
    succeeded (all bytes ASCII): little-endian pairs, a trailing odd byte
    dropped. *)
Fixpoint utf16le_pairs (bs : list Z) : list Z :=
  match bs with
  | b0 :: b1 :: bs' => (b0 + 256 * b1) :: utf16le_pairs bs'
  | _ => []
  end.

(** The body of the [try] in [_normalize_val], [norm] being
    [_normalize_val] itself for the nested calls. *)
Definition normalize_body (norm : pyval -> pyval -> res pyval) (val : pyval) : res pyval :=
  let fix norm_list (l : list pyval) : res (list pyval) :=
    match l with
    | [] => Ok []
    | x :: l' => y <- norm x PNone ;; ys <- norm_list l' ;; Ok (y :: ys)
    end in
  let fix norm_items (kv : list (pyval * pyval)) : res (list (pyval * pyval)) :=
    match kv with
    | [] => Ok []
    | (k, x) :: kv' => y <- norm x k ;; ys <- norm_items kv' ;; Ok ((k, y) :: ys)
    end in
  match val with
  | PStr s =>
      (* unicode(val) decodes with the ASCII codec *)
      let cs := codes_of_string s in
      if all_ascii cs then Ok (PUni cs) else Exc UnicodeDecodeError
  | PUni cs =>
      (* .decode first encodes with the ASCII codec; UnicodeEncodeError
         returns val *)
      if all_ascii cs then Ok (PUni cs) else Ok val
  | PBuffer bs =>
      let cs := codes_of_string bs in
      if all_ascii cs then Ok (PUni (utf16le_pairs cs)) else Ok (PStr (py_repr val))
  | PInt _ | PBool _ | PFloat _ => Ok val
  | PNSData bs =>
      Ok (PStr ("<NSData bytes:" ++ dec (Z.of_nat (String.length bs)) ++ ">")%string)
  | PNSArray l => ys <- norm_list l ;; Ok (PList ys)
  | PNSDict kv | PDict kv => ys <- norm_items kv ;; Ok (PDict ys)
  | PNSDate _ => Ok (PStr (py_repr val))
  | _ => if negb (truthy val) then Ok (PStr "") else Ok (PStr (py_repr val))
  end.

(** [_normalize_val(val, key)]: the hint test, then the [try]; any
    exception the body raises (including one from a nested call) is caught
    and [repr(val)] is returned.  The [stderr] message and [debugbreak()]
    (a no-op without [--debug]) do not change the returned value and are
    not modelled. *)
Fixpoint _normalize_val (val key : pyval) {struct val} : res pyval :=
  is_hint <- hint_check key ;;
  let ts := if is_hint then _value_to_datetime val else None in
  match ts with
  | Some dt =>
      Ok (match _datetime_to_string dt with Some s => PStr s | None => PNone end)
  | None =>
      match normalize_body _normalize_val val with
      | Ok v => Ok v
      | Exc _ => Ok (PStr (py_repr val))
      end
  end.

End Timestamps.

Arguments NumInt {FloatV} z.
Arguments NumFloat {FloatV} f.

(** ** [json.dumps]

    [dumps] with its defaults ([ensure_ascii=True], separators [', '] and
    [': ']): byte strings are decoded as UTF-8, every character outside
    [' '..'~'] is escaped, and values other than [None], bools, ints, text,
    lists and dicts raise [TypeError]. *)

Definition chr (c : Z) : string := String (ascii_of_nat (Z.to_nat c)) EmptyString.
Definition dquote : string := chr 34.
Definition backslash : string := chr 92.

Definition json_esc (c : Z) : string :=
  if c =? 34 then (backslash ++ dquote)%string
  else if c =? 92 then (backslash ++ backslash)%string
  else if c =? 10 then (backslash ++ "n")%string
  else if c =? 13 then (backslash ++ "r")%string
  else if c =? 9 then (backslash ++ "t")%string
  else if c =? 8 then (backslash ++ "b")%string
  else if c =? 12 then (backslash ++ "f")%string
  else if (32 <=? c) && (c <=? 126) then chr c
  else if c <? 65536 then (backslash ++ "u" ++ hex_pad 4 c)%string
  else let c' := c - 65536 in
       (backslash ++ "u" ++ hex_pad 4 (55296 + c' / 1024) ++
        backslash ++ "u" ++ hex_pad 4 (56320 + c' mod 1024))%string.

Definition json_string (cs : list Z) : string :=
  (dquote ++ concat "" (map json_esc cs) ++ dquote)%string.

Definition is_cont (b : Z) : bool := (128 <=? b) && (b <? 192).

(** The strict UTF-8 decoder of [str.decode('utf-8')]. *)
Fixpoint utf8_decode (fuel : nat) (bs : list Z) : option (list Z) :=
  match fuel with
  | O => None
  | S f =>
      match bs with
      | [] => Some []
      | b0 :: r0 =>
          if b0 <? 128 then option_map (cons b0) (utf8_decode f r0)
          else if (194 <=? b0) && (b0 <=? 223) then
            match r0 with
            | b1 :: r1 => if is_cont b1
                          then option_map (cons ((b0 - 192) * 64 + (b1 - 128))) (utf8_decode f r1)
                          else None
            | [] => None
            end
          else if (224 <=? b0) && (b0 <=? 239) then
            match r0 with
            | b1 :: b2 :: r2 =>
                let c := (b0 - 224) * 4096 + (b1 - 128) * 64 + (b2 - 128) in
                if is_cont b1 && is_cont b2 && (2048 <=? c)
                then option_map (cons c) (utf8_decode f r2) else None
            | _ => None
            end
          else if (240 <=? b0) && (b0 <=? 244) then
            match r0 with
            | b1 :: b2 :: b3 :: r3 =>
                let c := (b0 - 240) * 262144 + (b1 - 128) * 4096 + (b2 - 128) * 64 + (b3 - 128) in
                if is_cont b1 && is_cont b2 && is_cont b3 && (65536 <=? c) && (c <=? 1114111)
                then option_map (cons c) (utf8_decode f r3) else None
            | _ => None
            end
          else None
      end
  end.

Definition text_of_str (s : string) : res (list Z) :=
  let bs := codes_of_string s in
  match utf8_decode (S (List.length bs)) bs with
  | Some cs => Ok cs
  | None => Exc UnicodeDecodeError
  end.

(** A float as [dumps] writes it: [repr], or the JavaScript names of the
    non-finite values. *)
Definition float_json (x : pyfloat) : string :=
  match x with
  | FNaN => "NaN"
  | FInf true => "-Infinity"
  | FInf false => "Infinity"
  | FFin _ _ _ => float_repr x
  end.

(** A dict key as [dumps] writes it. *)
Definition json_key (k : pyval) : res string :=
  match k with
  | PStr s => cs <- text_of_str s ;; Ok (json_string cs)
  | PUni cs => Ok (json_string cs)
  | PBool true => Ok (json_string (codes_of_string "true"))
  | PBool false => Ok (json_string (codes_of_string "false"))
  | PNone => Ok (json_string (codes_of_string "null"))
  | PInt z => Ok (json_string (codes_of_string (dec z)))
  | PFloat x => Ok (json_string (codes_of_string (float_json x)))
  | _ => Exc TypeError
  end.

Fixpoint dumps (v : pyval) : res string :=
  let fix items (l : list pyval) : res (list string) :=
    match l with
    | [] => Ok []
    | x :: l' => s <- dumps x ;; ss <- items l' ;; Ok (s :: ss)
    end in
  let fix pairs (kv : list (pyval * pyval)) : res (list string) :=
    match kv with
    | [] => Ok []
    | (k, x) :: kv' =>
        ks <- json_key k ;; s <- dumps x ;; ss <- pairs kv' ;; Ok ((ks ++ ": " ++ s)%string :: ss)
    end in
  match v with
  | PNone => Ok "null"%string
  | PBool true => Ok "true"%string
  | PBool false => Ok "false"%string
  | PInt z => Ok (dec z)
  | PFloat x => Ok (float_json x)
  | PStr s => cs <- text_of_str s ;; Ok (json_string cs)
  | PUni cs => Ok (json_string cs)
  | PList l => ss <- items l ;; Ok ("[" ++ concat ", " ss ++ "]")%string
  | PDict kv => ss <- pairs kv ;; Ok ("{" ++ concat ", " ss ++ "}")%string
  | _ => Exc TypeError
  end.

(** ** Dict mutation *)

(** [d[k] = v]: an equal key keeps its place and gets the new value,
    a new key is added at the end. *)
Fixpoint dict_set (d : list (pyval * pyval)) (k v : pyval) : list (pyval * pyval) :=
  match d with
  | [] => [(k, v)]
  | (k', v') :: d' => if key_eqb k' k then (k', v) :: d' else (k', v') :: dict_set d' k v
  end.

(** [d.update(e)]. *)
Definition dict_update (d e : list (pyval * pyval)) : list (pyval * pyval) :=
  fold_left (fun acc '(k, v) => dict_set acc k v) e d.

(** [del d[k]]: [KeyError] when [k] is absent. *)
Fixpoint dict_del (d : list (pyval * pyval)) (k : pyval) : res (list (pyval * pyval)) :=
  match d with
  | [] => Exc KeyError
  | (k', v') :: d' =>
      if key_eqb k' k then Ok d' else r <- dict_del d' k ;; Ok ((k', v') :: r)
  end.

(** ** The [Logger] class

    The class-level state of [Logger] together with the objects it touches:
    [heap] holds the dict objects passed to [log_dict] (a record is passed
    by reference, [heap] index = object), [extras] is
    [Logger.Extra.extras], [out] is what [output_file] received, [tape] the
    scripted behaviour of the successive [output_file.write]/[flush] calls
    ([true]: that call raises [IOError]; an exhausted tape never fails),
    [lines_written] the counter and [errout] what [sys.stderr] received. *)
Record LState : Type := mkLS {
  heap : list (list (pyval * pyval));
  extras : list (pyval * pyval);
  out : list string;
  tape : list bool;
  lines_written : Z;
  errout : list string
}.

Definition M (A : Type) : Type := LState -> res A * LState.

Definition mret {A} (a : A) : M A := fun st => (Ok a, st).
Definition mbind {A B} (m : M A) (k : A -> M B) : M B :=
  fun st => match m st with
            | (Ok a, st') => k a st'
            | (Exc e, st') => (Exc e, st')
            end.
Definition raise {A} (e : exn) : M A := fun st => (Exc e, st).
Definition lift {A} (r : res A) : M A := fun st => (r, st).

(** [try: m] [except Exception as e: h(e)]. *)
Definition try_ {A} (m : M A) (h : exn -> M A) : M A :=
  fun st => match m st with
            | (Ok a, st') => (Ok a, st')
            | (Exc e, st') => h e st'
            end.

Notation "'let*' x := m 'in' k" := (mbind m (fun x => k))
  (at level 200, x name, m at level 100, k at level 200).

Definition set_heap (h : list (list (pyval * pyval))) (st : LState) : LState :=
  mkLS h (extras st) (out st) (tape st) (lines_written st) (errout st).
Definition set_extras (e : list (pyval * pyval)) (st : LState) : LState :=
  mkLS (heap st) e (out st) (tape st) (lines_written st) (errout st).

Definition get_extras : M (list (pyval * pyval)) := fun st => (Ok (extras st), st).

Definition heap_get (r : nat) : M (list (pyval * pyval)) :=
  fun st => match nth_error (heap st) r with
            | Some d => (Ok d, st)
            | None => (Exc AttributeError, st)
            end.

Fixpoint replace_nth {A} (l : list A) (n : nat) (a : A) : list A :=
  match l, n with
  | [], _ => []
  | _ :: l', O => a :: l'
  | x :: l', S n' => x :: replace_nth l' n' a
  end.

Definition heap_put (r : nat) (d : list (pyval * pyval)) : M unit :=
  fun st => (Ok tt, set_heap (replace_nth (heap st) r d) st).

(** A new dict object. *)
Definition alloc (d : list (pyval * pyval)) : M nat :=
  fun st => (Ok (List.length (heap st)), set_heap (heap st ++ [d]) st).

(** One call on [output_file]: [Some s] is [write(s)], [None] is [flush()]. *)
Definition out_call (w : option string) : M unit :=
  fun st =>
    let '(fails, rest) := match tape st with b :: t => (b, t) | [] => (false, []) end in
    if fails then (Exc IOError, mkLS (heap st) (extras st) (out st) rest (lines_written st) (errout st))
    else (Ok tt, mkLS (heap st) (extras st)
                      (match w with Some s => out st ++ [s] | None => out st end)
                      rest (lines_written st) (errout st)).

Definition nl : string := chr 10.

Definition incr_lines : M unit :=
  fun st => (Ok tt, mkLS (heap st) (extras st) (out st) (tape st) (lines_written st + 1) (errout st)).

Definition err_write (s : string) : M unit :=
  fun st => (Ok tt, mkLS (heap st) (extras st) (out st) (tape st) (lines_written st) (errout st ++ [s])).

Definition exn_name (e : exn) : string :=
  match e with
  | KeyError => "KeyError" | TypeError => "TypeError" | ValueError => "ValueError"
  | IndexError => "IndexError" | AttributeError => "AttributeError"
  | UnicodeDecodeError => "UnicodeDecodeError" | UnicodeEncodeError => "UnicodeEncodeError"
  | OverflowError => "OverflowError" | IOError => "IOError" | RuntimeError => "RuntimeError"
  end.

(** [log_error(message)], given the [log_dict] it calls. *)
Definition log_error_k (log_dict_k : nat -> M unit) (message : string) : M unit :=
  let* r := alloc [(PStr "osxcollector_error", PStr message)] in
  let* _ := log_dict_k r in
  let* ex := get_extras in
  let* _ := err_write "[ERROR] " in
  let* _ := err_write message in
  err_write (" - " ++ py_repr (PDict ex) ++ nl)%string.

(** [log_exception(e, message)]: the message is
    ['{0} {1} {2}'.format(message, exc_type, extract_tb(tb))]; the
    traceback entries (file names and line numbers) are not modelled. *)
Definition exception_message (e : exn) (message : string) : string :=
  (message ++ " <type 'exceptions." ++ exn_name e ++ "'> [<traceback>]")%string.

Definition log_exception_k (log_dict_k : nat -> M unit) (e : exn) (message : string) : M unit :=
  log_error_k log_dict_k (exception_message e message).

(** [log_dict(record)], [record] being the dict object [r].  [fuel] is the
    recursion depth still available: a call made with none left raises
    [RuntimeError] (maximum recursion depth exceeded). *)
Fixpoint log_dict (fuel : nat) (r : nat) : M unit :=
  match fuel with
  | O => raise RuntimeError
  | S f =>
      let* record := heap_get r in
      let* ex := get_extras in
      let* _ := heap_put r (dict_update record ex) in
      try_ (let* d := heap_get r in
            let* s := lift (dumps (PDict d)) in
            let* _ := out_call (Some s) in
            let* _ := out_call (Some nl) in
            let* _ := out_call None in
            incr_lines)
           (fun e => log_exception_k (log_dict f) e "")
  end.

Definition log_error (fuel : nat) := log_error_k (log_dict fuel).
Definition log_exception (fuel : nat) := log_exception_k (log_dict fuel).

(** [Logger.log_dict({...})] on a dict literal. *)
Definition log_literal (fuel : nat) (d : list (pyval * pyval)) : M unit :=
  let* r := alloc d in log_dict fuel r.

(** [Logger.Extra(key, val)]: [__enter__] and [__exit__]. *)
Definition extra_enter (key val : pyval) : M unit :=
  fun st => (Ok tt, set_extras (dict_set (extras st) key val) st).

Definition extra_exit (key : pyval) : M unit :=
  fun st => match dict_del (extras st) key with
            | Ok e => (Ok tt, set_extras e st)
            | Exc x => (Exc x, st)
            end.

(** [with Logger.Extra(key, val): body]: [__exit__] runs on every exit
    path; an exception it raises replaces the body's. *)
Definition with_extra (key val : pyval) (body : M unit) : M unit :=
  let* _ := extra_enter key val in
  fun st => match body st with
            | (Ok _, st1) => extra_exit key st1
            | (Exc e, st1) =>
                match extra_exit key st1 with
                | (Ok _, st2) => (Exc e, st2)
                | (Exc e', st2) => (Exc e', st2)
                end
            end.

Definition init : LState := mkLS [] [] [] [] 0 [].

(** ** [_hash_file]

    The three [hashlib] objects are modelled by what they digest: a
    hasher's state is the byte sequence fed to it so far and [hexdigest()]
    is the digest of that sequence ([md5], [sha1], [sha256] below).  A file
    system entry is either absent or unopenable ([None]), [Readable bs], or
    [FailsAfter bs]: the reads deliver [bs] and the next [read] raises. *)
Inductive fentry : Type :=
| Readable (bs : list Z)
| FailsAfter (bs : list Z).

Definition CHUNK_SIZE : N := 1048576.

(** [iter(partial(f.read, n), '')]: the successive non-empty reads. *)
Fixpoint read_chunks (n : nat) (fuel : nat) (bs : list Z) : list (list Z) :=
  match bs with
  | [] => []
  | _ :: _ =>
      match fuel with
      | O => [bs]
      | S f => firstn n bs :: read_chunks n f (skipn n bs)
      end
  end.

Section Hashing.
Variables md5 sha1 sha256 : list Z -> string.

Definition hexdigests (fed : list Z) : list string := [md5 fed; sha1 fed; sha256 fed].

(** [_hash_file(file_path)]. *)
Definition _hash_file (fs : string -> option fentry) (file_path : string) : list string :=
  match fs file_path with
  | None => [""; ""; ""]%string                      (* open() raises IOError *)
  | Some (FailsAfter _) => [""; ""; ""]%string       (* a read raises IOError *)
  | Some (Readable bs) =>
      let chunks := read_chunks (N.to_nat CHUNK_SIZE) (List.length bs) bs in
      hexdigests (fold_left (fun fed chunk => fed ++ chunk) chunks [])
  end.

End Hashing.

Definition fs_set (fs : string -> option fentry) (p : string) (e : option fentry) :
  string -> option fentry :=
  fun q => if String.eqb q p then e else fs q.

(** ** Concrete machine settings for the examples: a clock at
    [now], a UTC time zone, and floats represented by the integers they
    hold. *)
Definition utc (t : Z) : res Z := Ok t.
Definition float_int (cs : list Z) : res Z :=
  match parse_int cs with Some z => Ok z | None => Exc ValueError end.
Definition float_int_delta (unit z : Z) : res Z := Ok (unit * z).
Definition float_py_int (x : pyfloat) : Z :=
  match x with FFin neg m e => ftrunc neg m e | _ => 0 end.

Definition nested_user_scopes : M unit :=
  with_extra (PStr "user") (PStr "alice")
    (let* _ := with_extra (PStr "user") (PStr "bob") (log_literal 10 []) in
     log_literal 10 []).

(** Python's [a or b or ...] over a list of optional results. *)
Fixpoint first_some (l : list (option Z)) : option Z :=
  match l with
  | [] => None
  | Some d :: _ => Some d
  | None :: l' => first_some l'
  end.

(** The date bound enforced by [_timestamp_errorhandling]. *)
Definition valid_or_none (now_us : Z) (r : option Z) : Prop :=
  match r with
  | Some dt => MIN_YEAR <= year dt /\ dt <= now_us + us_per_day
  | None => True
  end.

(** Values that [_normalize_val] leaves as they are: unicode text, ints,
    floats, bools, and dicts whose keys give no timestamp hint and whose
    values are again such values. *)
Fixpoint normal_form (v : pyval) : bool :=
  match v with
  | PUni _ | PInt _ | PFloat _ | PBool _ => true
  | PDict kv =>
      (fix items (kv : list (pyval * pyval)) : bool :=
         match kv with
         | [] => true
         | (k, x) :: kv' =>
             match hint_check k with
             | Ok false => normal_form x && items kv'
             | _ => false
             end
         end) kv
  | _ => false
  end.

(** A string without a line feed. *)
Fixpoint no_newline (s : string) : bool :=
  match s with
  | EmptyString => true
  | String c s' => negb (Ascii.eqb c "010"%char) && no_newline s'
  end.

(** [m] leaves the dict object at address [r] as it is, and drops no
    object. *)
Definition preserves {A : Type} (r : nat) (m : M A) : Prop :=
  forall st, (r < List.length (heap st))%nat ->
    nth_error (heap (snd (m st))) r = nth_error (heap st) r /\
    (List.length (heap st) <= List.length (heap (snd (m st))))%nat.

(** ** Paths: [_relative_path] and [pathjoin] *)

(** [_relative_path(path)]: one leading ['/'] dropped. *)
Definition _relative_path (path : string) : string :=
  match path with
  | String "/"%char rest => rest
  | _ => path
  end.

Definition startswith_slash (s : string) : bool := String.prefix "/" s.

Fixpoint endswith_slash (s : string) : bool :=
  match s with
  | EmptyString => false
  | String c EmptyString => Ascii.eqb c "/"
  | String _ s' => endswith_slash s'
  end.

(** [os.path.join(a, *p)] of Python 2's [posixpath]: an absolute part
    restarts the path, a ['/'] is inserted unless the path so far is empty
    or ends with one. *)
Definition posix_join (a : string) (p : list string) : string :=
  fold_left (fun path b =>
               if startswith_slash b then b
               else if String.eqb path "" || endswith_slash path then (path ++ b)%string
               else (path ++ "/" ++ b)%string) p a.

(** [pathjoin(path, *args)]. *)
Definition pathjoin (path : string) (args : list string) : string :=
  match args with
  | [] => posix_join path []
  | _ :: _ => posix_join path (map _relative_path args)
  end.

(** ** [listdir] and [_get_homedirs]

    The file system is seen through [isdir] ([os.path.isdir]) and
    [os_listdir] ([os.listdir]), where [None] is the [OSError] it raises on
    a directory it cannot read; [ROOT_PATH] is the global of that name. *)
Record HomeDir : Type := mkHomeDir { user_name : string; path : string }.

Section Homedirs.
Variable isdir : string -> bool.
Variable os_listdir : string -> option (list string).
Variable ROOT_PATH : string.

Definition ignored_files : list string := [".DS_Store"; ".localized"]%string.

(** [listdir(dir_path)]. *)
Definition listdir (dir_path : string) : option (list string) :=
  if negb (isdir dir_path) then Some []
  else option_map (filter (fun v => negb (existsb (String.eqb v) ignored_files)))
                  (os_listdir dir_path).

(** The loop of [_get_homedirs] over the entries of [Users]. *)
Fixpoint homedirs_loop (names : list string) : list HomeDir :=
  match names with
  | [] => []
  | name :: names' =>
      if negb (String.prefix "." name)
      then mkHomeDir name (pathjoin ROOT_PATH ["Users"; name]%string) :: homedirs_loop names'
      else homedirs_loop names'
  end.

(** [_get_homedirs()]: [None] when [os.listdir] raises. *)
Definition _get_homedirs : option (list HomeDir) :=
  let users_dir_path := pathjoin ROOT_PATH ["Users"%string] in
  option_map homedirs_loop (listdir users_dir_path).

End Homedirs.

(** ** [Collector.collect] and the [_foreach_homedir] decorator

    The collection methods are kept abstract: [method name] is the bound
    method the [sections] table pairs with [name], and [func homedir] the
    decorated method called for one home directory.  [fuel] is the
    recursion depth left for [Logger.log_exception]. *)

(** [for x in l: f(x)]. *)
Fixpoint for_each {A : Type} (l : list A) (f : A -> M unit) : M unit :=
  match l with
  | [] => mret tt
  | x :: l' => let* _ := f x in for_each l' f
  end.

Definition section_names : list string :=
  ["system_info"; "kext"; "startup"; "applications"; "quarantines"; "downloads";
   "chrome"; "firefox"; "safari"; "accounts"; "mail"]%string.

(** [section_list and section_name not in section_list]. *)
Definition skip_section (section_list : option (list string)) (section_name : string) : bool :=
  match section_list with
  | None | Some [] => false
  | Some l => negb (existsb (String.eqb section_name) l)
  end.

(** One iteration of the loop of [collect]: the [continue] still leaves
    the [with] block. *)
Definition collect_section (fuel : nat) (section_list : option (list string))
    (method : string -> M unit) (section_name : string) : M unit :=
  with_extra (PStr "osxcollector_section") (PStr section_name)
    (if skip_section section_list section_name then mret tt
     else try_ (method section_name)
               (fun section_e => log_exception fuel section_e "failed section")).

(** [collect(section_list)]. *)
Definition collect (fuel : nat) (section_list : option (list string))
    (method : string -> M unit) : M unit :=
  for_each section_names (collect_section fuel section_list method).

(** The [wrapper] made by [_foreach_homedir(func)]. *)
Definition _foreach_homedir (fuel : nat) (homedirs : list HomeDir)
    (func : HomeDir -> M unit) : M unit :=
  for_each homedirs (fun homedir =>
    with_extra (PStr "osxcollector_username") (PStr (user_name homedir))
      (try_ (func homedir) (fun e => log_exception fuel e ""))).

(** Plain data: [None], bools, ints, floats, text, and lists and dicts
    whose elements and values are again plain data. *)
Fixpoint plain (v : pyval) : bool :=
  match v with
  | PNone | PBool _ | PInt _ | PFloat _ | PStr _ | PUni _ => true
  | PList l => forallb plain l
  | PDict kv => forallb (fun kx => plain (snd kx)) kv
  | _ => false
  end.

(** The codes of the digits [digits_rev] gives, most significant first. *)
Definition digit_codes (f : nat) (n : Z) : list Z :=
  map (fun a => Z.of_nat (nat_of_ascii a)) (rev (digits_rev f n)).

(** A relation between the states before and after each run of [m]. *)
Definition stable (R : LState -> LState -> Prop) {A : Type} (m : M A) : Prop :=
  forall st, R st (snd (m st)).

Definition same_extras (st st' : LState) : Prop := extras st' = extras st.

(** Output and the line counter only grow. *)
Definition log_grows (st st' : LState) : Prop :=
  (exists w, out st' = out st ++ w) /\ lines_written st <= lines_written st' /\
  (exists w, errout st' = errout st ++ w).

(** ============================================================ *)
(** * Properties *)
Example get_deep_nested :
  DictUtils.get_deep
    (PDict [(PStr "a", PDict [(PStr "b", PList [PInt 10; PInt 20; PInt 30])])])
    (PStr "a.b.1") PNone = Ok (PInt 20).
Proof. reflexivity. Qed.

Example get_deep_empty_path :
  DictUtils.get_deep (PDict []) (PStr "") PNone = Ok PNone.
Proof. reflexivity. Qed.

Example get_deep_not_container :
  DictUtils.get_deep (PDict [(PStr "a", PInt 1)]) (PStr "a.b") PNone = Ok PNone.
Proof. reflexivity. Qed.

(** C3: [get_deep] does not always return a value or [default]: a path
    segment that parses as an integer but is out of range for the list it
    indexes raises [IndexError], which neither [except] clause catches. *)
Example get_deep_out_of_range :
  DictUtils.get_deep (PDict [(PStr "a", PList [PInt 10])]) (PStr "a.5") PNone = Exc IndexError.
Proof. reflexivity. Qed.

Lemma yoe_bound (doe : Z) :
  0 <= doe < 146097 ->
  0 <= (doe - doe / 1460 + doe / 36524 - doe / 146096) / 365 <= 399.
Proof. intros. Z.div_mod_to_equations. lia. Qed.

Lemma Z_range_check (f : Z -> bool) (n : nat) :
  forallb f (map Z.of_nat (seq 0 (S n))) = true ->
  forall x, 0 <= x <= Z.of_nat n -> f x = true.
Proof.
  intros H x Hx. rewrite forallb_forall in H. apply H.
  apply in_map_iff. exists (Z.to_nat x). split; [lia |].
  apply in_seq. lia.
Qed.

Lemma civil_year_before_2004 (d : Z) :
  d < 12418 -> fst (fst (civil_from_days d)) < 2004.
Proof.
  intros Hd. destruct (Z_lt_le_dec d 11017) as [Hlow | Hhigh].
  - (* before 2000-03-01: at most the fourth 400-year era *)
    unfold civil_from_days. cbv beta zeta.
    assert (Hera : (d + 719468) / 146097 < 5) by (apply Z.div_lt_upper_bound; lia).
    assert (Hdoe : 0 <= d + 719468 - (d + 719468) / 146097 * 146097 < 146097)
      by (pose proof (Z.div_mod (d + 719468) 146097 ltac:(lia));
          pose proof (Z.mod_pos_bound (d + 719468) 146097 ltac:(lia)); lia).
    generalize dependent ((d + 719468) / 146097). intros era Hera Hdoe.
    generalize dependent (d + 719468 - era * 146097). intros doe Hdoe.
    pose proof (yoe_bound doe Hdoe) as Hy.
    generalize dependent ((doe - doe / 1460 + doe / 36524 - doe / 146096) / 365).
    intros yoe Hy.
    destruct (_ <? 10); destruct (_ <=? 2); cbn [fst]; lia.
  - (* 2000-03-01 .. 2003-12-31: checked day by day *)
    assert (HC : forallb (fun x => fst (fst (civil_from_days (x + 11017))) <? 2004)
                   (map Z.of_nat (seq 0 (S 1400))) = true)
      by (vm_compute; reflexivity).
    assert (Hr : 0 <= d - 11017 <= Z.of_nat 1400) by lia.
    pose proof (Z_range_check _ 1400 HC (d - 11017) Hr) as HX.
    cbv beta in HX. rewrite Z.sub_add in HX. apply Z.ltb_lt. exact HX.
Qed.

Lemma year_before_2004 (dt : Z) :
  dt < dt_of_civil 2004 1 1 -> year dt < MIN_YEAR.
Proof.
  intros H. unfold year, MIN_YEAR.
  assert (Hc : dt_of_civil 2004 1 1 = 12418 * us_per_day) by reflexivity.
  assert (Hd : dt / us_per_day < 12418)
    by (apply Z.div_lt_upper_bound; unfold us_per_day, us_per_s in *; lia).
  pose proof (civil_year_before_2004 _ Hd) as Hy.
  destruct (civil_from_days (dt / us_per_day)) as [[y m] dd].
  cbn [fst] in Hy. exact Hy.
Qed.

Section TimestampProps.
Variable now_us : Z.
Variable local_of_utc : Z -> res Z.
Variable FloatV : Type.
Variable float_of_text : list Z -> res FloatV.
Variable float_delta_us : Z -> FloatV -> res Z.
Variable float_of_py : pyfloat -> FloatV.

Local Abbreviation conv := (converter now_us local_of_utc FloatV float_delta_us).
Local Abbreviation vtd :=
  (_value_to_datetime now_us local_of_utc FloatV float_of_text float_delta_us float_of_py).

Lemma converter_valid (epoch unit : Z) (a : option (pynum FloatV)) :
  valid_or_none now_us (conv epoch unit a).
Proof.
  unfold converter, _timestamp_errorhandling.
  destruct (bind _ _) as [dt |]; [| exact I].
  destruct (dt_add now_us us_per_day) as [tomorrow |] eqn:Ht; [| exact I].
  unfold dt_add in Ht.
  destruct (_ && _); [| discriminate]. injection Ht as <-.
  destruct (year dt <? MIN_YEAR) eqn:E1; destruct (now_us + us_per_day <? dt) eqn:E2;
    simpl; try exact I.
  rewrite Z.ltb_ge in E1, E2. lia.
Qed.

Lemma py_or_valid (a b : option Z) :
  valid_or_none now_us a -> valid_or_none now_us b -> valid_or_none now_us (py_or a b).
Proof. destruct a; simpl; auto. Qed.

(** A converter rejects when every local time it could compute lies
    before 2004. *)
Lemma converter_none_if_early (epoch unit : Z) (a : option (pynum FloatV)) :
  (forall td dt l,
      delta FloatV float_delta_us unit a = Ok td -> dt_add epoch td = Ok dt ->
      local_of_utc (dt / us_per_s) = Ok l -> l * us_per_s < dt_of_civil 2004 1 1) ->
  conv epoch unit a = None.
Proof.
  intros H. unfold converter, _timestamp_errorhandling, _convert_to_local, fromtimestamp.
  destruct (delta _ _ unit a) as [td |] eqn:Ed; simpl; [| reflexivity].
  destruct (dt_add epoch td) as [dt |] eqn:Ea; simpl; [| reflexivity].
  destruct (local_of_utc (dt / us_per_s)) as [l |] eqn:El; simpl; [| reflexivity].
  destruct (_ && _); [| reflexivity].
  destruct (dt_add now_us us_per_day); [| reflexivity].
  pose proof (year_before_2004 _ (H td dt l eq_refl Ea El)) as Hy.
  apply Z.ltb_lt in Hy. rewrite Hy. reflexivity.
Qed.

(** Everything an accepted converter result was computed from. *)
Lemma converter_some (epoch unit : Z) (a : option (pynum FloatV)) (d : Z) :
  conv epoch unit a = Some d ->
  exists td dt l,
    delta FloatV float_delta_us unit a = Ok td /\ dt_add epoch td = Ok dt /\
    local_of_utc (dt / us_per_s) = Ok l /\ d = l * us_per_s /\
    dt_min <= d <= dt_max /\ MIN_YEAR <= year d /\ d <= now_us + us_per_day.
Proof.
  unfold converter, _timestamp_errorhandling, _convert_to_local, fromtimestamp, bind.
  destruct (delta _ _ unit a) as [td |] eqn:Ed; cbv beta iota; [| discriminate].
  destruct (dt_add epoch td) as [dt |] eqn:Ea; cbv beta iota; [| discriminate].
  destruct (local_of_utc (dt / us_per_s)) as [l |] eqn:El; cbv beta iota; [| discriminate].
  destruct ((dt_min <=? l * us_per_s) && (l * us_per_s <=? dt_max)) eqn:E1;
    cbv beta iota; [| discriminate].
  destruct (dt_add now_us us_per_day) as [tm |] eqn:Et; [| discriminate].
  unfold dt_add in Et.
  destruct ((dt_min <=? now_us + us_per_day) && (now_us + us_per_day <=? dt_max));
    [| discriminate].
  injection Et as <-.
  destruct (year (l * us_per_s) <? MIN_YEAR) eqn:E3; [discriminate |].
  destruct (now_us + us_per_day <? l * us_per_s) eqn:E4; [discriminate |].
  cbv beta iota. intros Hd. injection Hd as <-.
  exists td, dt, l. apply andb_true_iff in E1. destruct E1 as [E1 E2].
  rewrite Z.leb_le in E1, E2. rewrite Z.ltb_ge in E3, E4. repeat split; auto; lia.
Qed.

Lemma year_at_least_2004 (d : Z) : MIN_YEAR <= year d -> dt_of_civil 2004 1 1 <= d.
Proof.
  intros H. apply Z.nlt_ge. intros Hlt. pose proof (year_before_2004 d Hlt). lia.
Qed.

Lemma value_to_datetime_first_some (val : pyval) :
  vtd val =
  match text_codes val with
  | Some cs =>
      match float_of_text cs with
      | Ok f =>
          first_some [conv DATETIME_1970 1 (Some (NumFloat f));
                      conv DATETIME_1601 1 (Some (NumFloat f));
                      conv DATETIME_1970 us_per_s (Some (NumFloat f));
                      conv DATETIME_2001 us_per_s (Some (NumFloat f))]
      | Exc _ => None
      end
  | None =>
      first_some [conv DATETIME_1970 1 (num_arg FloatV float_of_py val);
                  conv DATETIME_1601 1 (num_arg FloatV float_of_py val);
                  conv DATETIME_1970 us_per_s (num_arg FloatV float_of_py val);
                  conv DATETIME_2001 us_per_s (num_arg FloatV float_of_py val)]
  end.
Proof.
  assert (Hc : forall a, convert_all now_us local_of_utc FloatV float_delta_us a =
            first_some [conv DATETIME_1970 1 a; conv DATETIME_1601 1 a;
                        conv DATETIME_1970 us_per_s a; conv DATETIME_2001 us_per_s a]).
  { intros a. unfold convert_all, _microseconds_since_epoch_to_datetime,
      _microseconds_since_1601_to_datetime, _seconds_since_epoch_to_datetime,
      _seconds_since_2001_to_datetime.
    destruct (converter _ _ _ _ DATETIME_1970 1 a); [reflexivity |].
    destruct (converter _ _ _ _ DATETIME_1601 1 a); [reflexivity |].
    destruct (converter _ _ _ _ DATETIME_1970 us_per_s a); [reflexivity |].
    destruct (converter _ _ _ _ DATETIME_2001 us_per_s a); reflexivity. }
  unfold _value_to_datetime.
  destruct (text_codes val); [destruct (float_of_text l) |]; rewrite ?Hc; reflexivity.
Qed.

Lemma res_ok_inj {A : Type} (a b : A) : Ok a = Ok b -> a = b.
Proof. congruence. Qed.

Lemma us_per_s_value : us_per_s = 1000000.
Proof. reflexivity. Qed.

(** An accepted seconds-since-1970 reading of [n] shadows the two
    microsecond readings, when the local offset stays within a day. *)
Lemma seconds_1970_wins (n d1 : Z)
  (Hoff : forall t l, local_of_utc t = Ok l -> Z.abs (l - t) <= 86400) :
  conv DATETIME_1970 us_per_s (Some (NumInt n)) = Some d1 ->
  vtd (PInt n) = Some d1.
Proof.
  intros H1.
  destruct (converter_some _ _ _ _ H1)
    as (td & dt & l & Hd & Ha & Hl & Hd1 & [_ Hmax] & Hy & _).
  apply year_at_least_2004 in Hy.
  unfold delta, timedelta in Hd. destruct (Z.abs _ <=? _); [| discriminate].
  apply res_ok_inj in Hd; subst td.
  unfold dt_add in Ha. destruct (_ && _); [| discriminate]. apply res_ok_inj in Ha; subst dt.
  assert (HD70 : DATETIME_1970 = 0) by reflexivity.
  assert (HD01 : DATETIME_1601 = -11644473600000000) by reflexivity.
  assert (Hc : dt_of_civil 2004 1 1 = 1072915200000000) by reflexivity.
  assert (Hm : dt_max = 253402300799999999) by reflexivity.
  pose proof us_per_s_value as Hu.
  rewrite HD70, Z.add_0_l, Hu, Z.mul_comm, Z.div_mul in Hl by lia.
  pose proof (Hoff _ _ Hl) as Ho.
  rewrite Hd1, Hu in Hmax, Hy.
  assert (Hn : 1072828800 <= n <= 253402387199) by lia.
  rewrite value_to_datetime_first_some. cbn [text_codes num_arg].
  rewrite (converter_none_if_early DATETIME_1970 1), (converter_none_if_early DATETIME_1601 1).
  - rewrite H1. reflexivity.
  - intros td dt l' Hd' Ha' Hl'. unfold delta, timedelta in Hd'.
    destruct (Z.abs _ <=? _); [| discriminate]. apply res_ok_inj in Hd'; subst td.
    unfold dt_add in Ha'. destruct (_ && _); [| discriminate]. apply res_ok_inj in Ha'; subst dt.
    pose proof (Hoff _ _ Hl') as Ho'. rewrite Hu, HD01 in *.
    assert (Hq : (-11644473600000000 + 1 * n) / 1000000 <= -11644220197)
      by (apply Z.div_le_upper_bound; lia).
    rewrite Hc. lia.
  - intros td dt l' Hd' Ha' Hl'. unfold delta, timedelta in Hd'.
    destruct (Z.abs _ <=? _); [| discriminate]. apply res_ok_inj in Hd'; subst td.
    unfold dt_add in Ha'. destruct (_ && _); [| discriminate]. apply res_ok_inj in Ha'; subst dt.
    pose proof (Hoff _ _ Hl') as Ho'. rewrite Hu, HD70 in *.
    assert (Hq : (0 + 1 * n) / 1000000 <= 253403)
      by (apply Z.div_le_upper_bound; lia).
    rewrite Hc. lia.
Qed.

(** C4: [_value_to_datetime] returns the first accepted reading among
    microseconds since 1970, microseconds since 1601, seconds since 1970
    and seconds since 2001, and [None] when none is accepted; an integer
    accepted both as seconds since 1970 and as seconds since 2001 gets the
    seconds-since-1970 reading (local offsets within one day). *)
Theorem value_to_datetime_priority
  (Hoff : forall t l, local_of_utc t = Ok l -> Z.abs (l - t) <= 86400) :
  (forall val : pyval,
     vtd val =
     match text_codes val with
     | Some cs =>
         match float_of_text cs with
         | Ok f =>
             first_some
               [_microseconds_since_epoch_to_datetime now_us local_of_utc FloatV
                  float_delta_us (Some (NumFloat f));
                _microseconds_since_1601_to_datetime now_us local_of_utc FloatV
                  float_delta_us (Some (NumFloat f));
                _seconds_since_epoch_to_datetime now_us local_of_utc FloatV
                  float_delta_us (Some (NumFloat f));
                _seconds_since_2001_to_datetime now_us local_of_utc FloatV
                  float_delta_us (Some (NumFloat f))]
         | Exc _ => None
         end
     | None =>
         first_some
           [_microseconds_since_epoch_to_datetime now_us local_of_utc FloatV
              float_delta_us (num_arg FloatV float_of_py val);
            _microseconds_since_1601_to_datetime now_us local_of_utc FloatV
              float_delta_us (num_arg FloatV float_of_py val);
            _seconds_since_epoch_to_datetime now_us local_of_utc FloatV
              float_delta_us (num_arg FloatV float_of_py val);
            _seconds_since_2001_to_datetime now_us local_of_utc FloatV
              float_delta_us (num_arg FloatV float_of_py val)]
     end) /\
  (forall n d1 d2 : Z,
     _seconds_since_epoch_to_datetime now_us local_of_utc FloatV float_delta_us
       (Some (NumInt n)) = Some d1 ->
     _seconds_since_2001_to_datetime now_us local_of_utc FloatV float_delta_us
       (Some (NumInt n)) = Some d2 ->
     vtd (PInt n) = Some d1).
Proof.
  split.
  - intros val. exact (value_to_datetime_first_some val).
  - intros n d1 d2 H1 _. exact (seconds_1970_wins n d1 Hoff H1).
Qed.

(** C5: each of the four converters, and so [_value_to_datetime], only
    returns dates of year 2004 or later and at most one day after [now]. *)
Theorem timestamp_candidates_bounded (a : option (pynum FloatV)) (val : pyval) :
  valid_or_none now_us
    (_microseconds_since_epoch_to_datetime now_us local_of_utc FloatV float_delta_us a) /\
  valid_or_none now_us
    (_microseconds_since_1601_to_datetime now_us local_of_utc FloatV float_delta_us a) /\
  valid_or_none now_us
    (_seconds_since_epoch_to_datetime now_us local_of_utc FloatV float_delta_us a) /\
  valid_or_none now_us
    (_seconds_since_2001_to_datetime now_us local_of_utc FloatV float_delta_us a) /\
  valid_or_none now_us (vtd val).
Proof.
  repeat split; try apply converter_valid.
  unfold _value_to_datetime, convert_all.
  destruct (text_codes val); [destruct (float_of_text l); [| exact I] |];
    repeat apply py_or_valid; apply converter_valid.
Qed.

End TimestampProps.

Lemma value_to_datetime_priority_witness :
  _value_to_datetime (dt_of_civil 2080 1 1) utc Z float_int float_int_delta float_py_int
    (PInt 1100000000) = Some (1100000000 * us_per_s).
Proof.
  refine (proj2 (value_to_datetime_priority (dt_of_civil 2080 1 1) utc Z float_int
                   float_int_delta float_py_int _) 1100000000 _ ((978307200 + 1100000000) * us_per_s) _ _).
  - intros t l H. injection H as <-. rewrite Z.sub_diag. simpl. lia.
  - vm_compute. reflexivity.
  - vm_compute. reflexivity.
Defined.

(** C9: [_hash_file] of an empty readable file gives the three digests of
    the empty input; a missing file, or one whose read fails, gives three
    empty strings. *)
Theorem hash_file_empty_or_failing (md5 sha1 sha256 : list Z -> string)
  (fs : string -> option fentry) (p : string) (bs : list Z) :
  _hash_file md5 sha1 sha256 (fs_set fs p (Some (Readable []))) p =
    [md5 []; sha1 []; sha256 []] /\
  _hash_file md5 sha1 sha256 (fs_set fs p None) p = [""; ""; ""]%string /\
  _hash_file md5 sha1 sha256 (fs_set fs p (Some (FailsAfter bs))) p =
    [""; ""; ""]%string.
Proof.
  unfold _hash_file, fs_set. rewrite String.eqb_refl. repeat split.
Qed.

Section NormalizeProps.
Variable now_us : Z.
Variable local_of_utc : Z -> res Z.
Variable FloatV : Type.
Variable float_of_text : list Z -> res FloatV.
Variable float_delta_us : Z -> FloatV -> res Z.
Variable float_of_py : pyfloat -> FloatV.
Local Abbreviation NV :=
  (_normalize_val now_us local_of_utc FloatV float_of_text float_delta_us float_of_py).
Local Abbreviation VTD :=
  (_value_to_datetime now_us local_of_utc FloatV float_of_text float_delta_us float_of_py).

Lemma normalize_unfold (val key : pyval) :
  NV val key =
  (is_hint <- hint_check key ;;
   match (if is_hint then VTD val else None) with
   | Some dt =>
       Ok (match _datetime_to_string dt with Some s => PStr s | None => PNone end)
   | None =>
       match normalize_body NV val with
       | Ok v => Ok v
       | Exc _ => Ok (PStr (py_repr val))
       end
   end).
Proof. destruct val; reflexivity. Qed.

Lemma normalize_normal_form : forall v k,
  normal_form v = true -> hint_check k = Ok false -> NV v k = Ok v.
Proof.
  fix IH 1. intros v k Hv Hk. rewrite normalize_unfold, Hk. cbn [bind].
  destruct v; try discriminate; cbn [normalize_body].
  - reflexivity.
  - reflexivity.
  - reflexivity.
  - destruct (all_ascii cs); reflexivity.
  - revert kv Hv. fix IHl 1. intros [| [k' x] kv'] Hv; [reflexivity |].
    cbn [normal_form] in Hv.
    destruct (hint_check k') as [[|] |] eqn:Ek'; try discriminate.
    apply andb_true_iff in Hv. destruct Hv as [Hx Hkv].
    pose proof (IHl kv' Hkv) as IHkv.
    cbn [bind]. rewrite (IH x k' Hx Ek'). cbn [bind].
    match type of IHkv with context [bind ?T _] => destruct T eqn:ET end.
    + try rewrite ET in IHkv. cbn [bind] in IHkv |- *. congruence.
    + try rewrite ET in IHkv. cbn [bind] in IHkv. discriminate.
Qed.

Lemma normalize_hint_exc (val key : pyval) (e : exn) :
  hint_check key = Exc e -> NV val key = Exc e.
Proof. intros H. rewrite normalize_unfold, H. reflexivity. Qed.

Lemma normalize_hint_ok (val key : pyval) (b : bool) :
  hint_check key = Ok b -> exists v, NV val key = Ok v.
Proof.
  intros H. rewrite normalize_unfold, H. cbn [bind].
  destruct (if b then VTD val else None); [eexists; reflexivity |].
  destruct (normalize_body NV val); eexists; reflexivity.
Qed.

Lemma hint_check_exc (key : pyval) (e : exn) :
  hint_check key = Exc e -> e = AttributeError /\ truthy key = true /\ text_codes key = None.
Proof.
  unfold hint_check. destruct (truthy key); [| discriminate].
  destruct key; try discriminate; intros H; injection H as <-; auto.
Qed.

Lemma hint_check_ok (key : pyval) :
  (exists b, hint_check key = Ok b) <-> (truthy key = false \/ text_codes key <> None).
Proof.
  unfold hint_check. destruct (truthy key); [| split; eauto].
  destruct key; cbn; split; intros H;
    solve [ eauto | right; discriminate
          | destruct H as [? Hb]; discriminate
          | destruct H as [H | H]; [discriminate | congruence] ].
Qed.

(** C2: [_normalize_val val key] returns a value exactly when the hint
    test [key.lower()] can run, that is when [key] is false or is text;
    otherwise it raises [AttributeError], since that test sits before the
    [try].  With the default [key=None] it always returns a value.  When
    the body of the [try] runs (no hint, or a hint but no date) and raises,
    the result is [repr(val)]. *)
Theorem normalize_val_total_iff_key (val key : pyval) :
  ((exists v, NV val key = Ok v) <-> (truthy key = false \/ text_codes key <> None)) /\
  (forall e, NV val key = Exc e -> e = AttributeError) /\
  (exists v, NV val PNone = Ok v) /\
  (forall e, normalize_body NV val = Exc e ->
     hint_check key = Ok false \/ (hint_check key = Ok true /\ VTD val = None) ->
     NV val key = Ok (PStr (py_repr val))).
Proof.
  split; [| split; [| split]].
  - rewrite <- hint_check_ok. split.
    + intros [v Hv]. destruct (hint_check key) as [b | e] eqn:Eh; [eauto |].
      rewrite (normalize_hint_exc val key e Eh) in Hv. discriminate.
    + intros [b Hb]. exact (normalize_hint_ok val key b Hb).
  - intros e He. destruct (hint_check key) as [b | e'] eqn:Eh.
    + destruct (normalize_hint_ok val key b Eh) as [v Hv]. congruence.
    + rewrite (normalize_hint_exc val key e' Eh) in He. injection He as <-.
      exact (proj1 (hint_check_exc key e' Eh)).
  - exact (normalize_hint_ok val PNone false eq_refl).
  - intros e Hb [Hk | [Hk Hv]]; rewrite normalize_unfold, Hk; cbn [bind];
      rewrite ?Hv, Hb; reflexivity.
Qed.

(** C6 (code bug): a Python list, and a byte string holding UTF-8 text that is not
    ASCII, are plain data already, yet [_normalize_val] turns both into
    their [repr]: there is no branch for [list], and [unicode(val)] fails
    on the non-ASCII bytes before the UTF-8 decoding is reached. *)
Theorem normalize_val_list_repr :
  NV (PList [PInt 1]) PNone = Ok (PStr "[1]") /\
  NV (PStr (string_of_codes [195; 169])) PNone = Ok (PStr "'\xc3\xa9'").
Proof. split; reflexivity. Qed.

(** [_normalize_val] returns unchanged the unicode text, ints, floats and
    bools, and the dicts whose keys give no timestamp hint and whose values
    are again such values, under any key that gives no hint. *)
Theorem normalize_val_fixes_normal_form (v k : pyval) :
  normal_form v = true -> hint_check k = Ok false -> NV v k = Ok v.
Proof. intros Hv Hk. exact (normalize_normal_form v k Hv Hk). Qed.

End NormalizeProps.

(** C2: a true key that is not text makes [_normalize_val] raise. *)
Example normalize_val_int_key_raises :
  _normalize_val (dt_of_civil 2030 1 1) utc Z float_int float_int_delta float_py_int (PInt 5) (PInt 1) =
  Exc AttributeError.
Proof. reflexivity. Qed.

Lemma normalize_val_total_iff_key_witness :
  normalize_body (_normalize_val (dt_of_civil 2030 1 1) utc Z float_int float_int_delta float_py_int)
    (PDict [(PInt 1, PInt 2)]) = Exc AttributeError /\
  _normalize_val (dt_of_civil 2030 1 1) utc Z float_int float_int_delta float_py_int
    (PDict [(PInt 1, PInt 2)]) PNone = Ok (PStr "{1: 2}").
Proof.
  split; [vm_compute; reflexivity |].
  apply (proj2 (proj2 (proj2 (normalize_val_total_iff_key (dt_of_civil 2030 1 1) utc Z
           float_int float_int_delta float_py_int (PDict [(PInt 1, PInt 2)]) PNone)))
           AttributeError).
  - vm_compute. reflexivity.
  - left. reflexivity.
Defined.

Lemma normalize_val_fixes_normal_form_witness :
  _normalize_val (dt_of_civil 2030 1 1) utc Z float_int float_int_delta float_py_int
    (PDict [(PUni [110; 97; 109; 101], PUni [97]); (PStr "size", PFloat (FFin false 15 (-1)))])
    (PStr "files") =
  Ok (PDict [(PUni [110; 97; 109; 101], PUni [97]); (PStr "size", PFloat (FFin false 15 (-1)))]).
Proof.
  apply normalize_val_fixes_normal_form; vm_compute; reflexivity.
Defined.

(** ** Dict keys and dict mutation *)

Lemma codes_eqb_eq (a b : list Z) : codes_eqb a b = true <-> a = b.
Proof.
  revert b. induction a as [| x a IH]; intros [| y b]; cbn; try (split; congruence).
  rewrite andb_true_iff, Z.eqb_eq, IH. split; [intros [-> ->] | intros H; injection H]; auto.
Qed.

Lemma keynf_eqb_eq (x y : keynf) : keynf_eqb x y = true <-> x = y.
Proof.
  destruct x, y; cbn; try (split; congruence).
  - rewrite Z.eqb_eq. split; congruence.
  - rewrite andb_true_iff, !Z.eqb_eq. split; [intros [-> ->] | intros H; injection H]; auto.
  - rewrite Bool.eqb_true_iff. split; congruence.
  - rewrite codes_eqb_eq. split; congruence.
  - rewrite String.eqb_eq. split; congruence.
Qed.

Lemma key_eqb_spec (a b : pyval) :
  key_eqb a b = true <-> exists x, knf a = Some x /\ knf b = Some x.
Proof.
  unfold key_eqb. destruct (knf a) as [x |], (knf b) as [y |];
    try (split; [discriminate | intros (z & H1 & H2); discriminate]).
  rewrite keynf_eqb_eq. split; [intros -> | intros (z & H1 & H2)]; eauto; congruence.
Qed.

Lemma key_eqb_refl (k : pyval) : knf k <> None -> key_eqb k k = true.
Proof. intros H. apply key_eqb_spec. destruct (knf k) as [x |]; [eauto | congruence]. Qed.

Lemma key_eqb_sym (a b : pyval) : key_eqb a b = key_eqb b a.
Proof.
  apply Bool.eq_iff_eq_true. rewrite !key_eqb_spec.
  split; intros (x & H1 & H2); eauto.
Qed.

Lemma key_eqb_trans (a b c : pyval) :
  key_eqb a b = true -> key_eqb b c = true -> key_eqb a c = true.
Proof.
  rewrite !key_eqb_spec. intros (x & H1 & H2) (y & H3 & H4). exists x. split; congruence.
Qed.

Lemma dict_del_set (e : list (pyval * pyval)) (k v : pyval) :
  knf k <> None ->
  dict_del (dict_set e k v) k =
  match dict_del e k with Ok e' => Ok e' | Exc _ => Ok e end.
Proof.
  intros Hk. induction e as [| [k' v'] e IH]; cbn.
  - rewrite key_eqb_refl by exact Hk. reflexivity.
  - destruct (key_eqb k' k) eqn:E; cbn; [rewrite E; reflexivity |].
    rewrite E, IH. destruct (dict_del e k); reflexivity.
Qed.

Lemma dict_get_set (d : list (pyval * pyval)) (k v q : pyval) :
  dict_get (dict_set d k v) q = if key_eqb k q then Some v else dict_get d q.
Proof.
  induction d as [| [k' v'] d IH]; cbn.
  - destruct (key_eqb k q); reflexivity.
  - destruct (key_eqb k' k) eqn:E; cbn.
    + destruct (key_eqb k q) eqn:E2.
      * rewrite (key_eqb_trans _ _ _ E E2). reflexivity.
      * destruct (key_eqb k' q) eqn:E3; [| reflexivity].
        rewrite key_eqb_sym in E. rewrite (key_eqb_trans _ _ _ E E3) in E2. discriminate.
    + rewrite IH. destruct (key_eqb k' q) eqn:E3, (key_eqb k q) eqn:E2; try reflexivity.
      rewrite key_eqb_sym in E2. rewrite (key_eqb_trans _ _ _ E3 E2) in E. discriminate.
Qed.

Lemma dict_get_app (l1 l2 : list (pyval * pyval)) (q : pyval) :
  dict_get (l1 ++ l2) q =
  match dict_get l1 q with Some v => Some v | None => dict_get l2 q end.
Proof.
  induction l1 as [| [k v] l1 IH]; cbn; [reflexivity |].
  destruct (key_eqb k q); [reflexivity | exact IH].
Qed.

(** After [d.update(e)] a key has its value in [e] (its last binding
    there) if it has one, and its value in [d] otherwise. *)
Lemma dict_get_update (d e : list (pyval * pyval)) (q : pyval) :
  dict_get (dict_update d e) q =
  match dict_get (rev e) q with Some v => Some v | None => dict_get d q end.
Proof.
  unfold dict_update. revert d. induction e as [| [k v] e IH]; intros d; cbn; [reflexivity |].
  rewrite IH, dict_get_app, dict_get_set. cbn.
  destruct (dict_get (rev e) q); [reflexivity |]. destruct (key_eqb k q); reflexivity.
Qed.

(** C1: entering [Logger.Extra(key, val)] and leaving it does not restore
    what [extras] held for [key] before: [__exit__] deletes [key], so a
    value bound by an outer scope is lost as well. *)
Theorem extra_enter_exit_deletes (k v : pyval) (st : LState) :
  knf k <> None ->
  (let* _ := extra_enter k v in extra_exit k) st =
  (Ok tt, set_extras (match dict_del (extras st) k with Ok e => e | Exc _ => extras st end) st).
Proof.
  intros Hk. unfold mbind, extra_enter, extra_exit. cbn [extras set_extras].
  rewrite dict_del_set by exact Hk.
  destruct (dict_del (extras st) k); unfold set_extras; reflexivity.
Qed.

(** C1: with [user] bound to [alice] and then to [bob], the record logged
    after the inner scope has no [user] key, and leaving the outer scope
    raises [KeyError]. *)
Example nested_user_scopes_outcome :
  fst (nested_user_scopes init) = Exc KeyError /\
  map Ok (out (snd (nested_user_scopes init))) =
    [dumps (PDict [(PStr "user", PStr "bob")]); Ok nl; dumps (PDict []); Ok nl] /\
  lines_written (snd (nested_user_scopes init)) = 2.
Proof. vm_compute. repeat split. Qed.

Lemma extra_enter_exit_deletes_witness :
  (let* _ := extra_enter (PStr "user") (PStr "bob") in extra_exit (PStr "user"))
    (set_extras [(PStr "user", PStr "alice")] init) =
  (Ok tt, set_extras [] (set_extras [(PStr "user", PStr "alice")] init)).
Proof.
  refine (eq_trans (extra_enter_exit_deletes (PStr "user") (PStr "bob") _ _) _).
  - vm_compute. congruence.
  - reflexivity.
Defined.

Lemma nth_error_replace_nth {A} (l : list A) (n : nat) (a b : A) :
  nth_error l n = Some b -> nth_error (replace_nth l n a) n = Some a.
Proof.
  revert n. induction l as [| x l IH]; intros [| n] H; cbn in *; try discriminate; auto.
Qed.

Lemma log_dict_success (f : nat) (r : nat) (st : LState) (record : list (pyval * pyval)) (s : string) :
  nth_error (heap st) r = Some record ->
  dumps (PDict (dict_update record (extras st))) = Ok s ->
  forallb negb (firstn 3 (tape st)) = true ->
  log_dict (S f) r st =
  (Ok tt, mkLS (replace_nth (heap st) r (dict_update record (extras st))) (extras st)
             (out st ++ [s; nl]) (skipn 3 (tape st)) (lines_written st + 1) (errout st)).
Proof.
  intros Hr Hs Ht. cbn [log_dict]. unfold mbind, heap_get, get_extras, heap_put, try_, lift.
  rewrite Hr. cbn [heap set_heap extras].
  rewrite (nth_error_replace_nth _ _ _ _ Hr). rewrite Hs.
  destruct st as [h e o t lw eo]; cbn [tape heap extras out lines_written errout set_heap] in *.
  unfold out_call, incr_lines. cbn [tape heap extras out lines_written errout].
  destruct t as [| [|] [| [|] [| [|] t]]]; cbn in Ht; try discriminate; cbn;
    rewrite <- ?app_assoc; reflexivity.
Qed.


Lemma no_newline_app (a b : string) :
  no_newline (a ++ b) = no_newline a && no_newline b.
Proof. induction a as [| c a IH]; cbn; [reflexivity | rewrite IH, andb_assoc; reflexivity]. Qed.

Lemma no_newline_concat (sep : string) (l : list string) :
  no_newline sep = true ->
  no_newline (concat sep l) = forallb no_newline l.
Proof.
  intros Hs. induction l as [| x l IH]; [reflexivity |].
  destruct l as [| y l].
  - cbn. rewrite andb_true_r. reflexivity.
  - change (concat sep (x :: y :: l)) with (x ++ sep ++ concat sep (y :: l))%string.
    rewrite !no_newline_app, IH, Hs. reflexivity.
Qed.

Lemma no_newline_sla (l : list ascii) :
  no_newline (string_of_list_ascii l) = forallb (fun c => negb (Ascii.eqb c "010"%char)) l.
Proof. induction l as [| c l IH]; cbn; [reflexivity | rewrite IH; reflexivity]. Qed.

Lemma code_not_newline (x : Z) :
  0 <= x < 256 -> x <> 10 -> negb (Ascii.eqb (ascii_of_nat (Z.to_nat x)) "010"%char) = true.
Proof.
  intros Hx Hn. apply negb_true_iff, Ascii.eqb_neq. intros He.
  apply (f_equal nat_of_ascii) in He. rewrite Ascii.nat_ascii_embedding in He by lia.
  cbn in He. lia.
Qed.

Lemma forallb_digits (P : ascii -> bool) (w : nat) (ds : list ascii) :
  P "0"%char = true -> forallb P ds = true ->
  forallb P (repeat "0"%char (w - List.length (rev ds)) ++ rev ds) = true.
Proof.
  intros H0 Hd. rewrite forallb_app. apply andb_true_iff. split.
  - apply forallb_forall. intros c Hc. apply repeat_spec in Hc. subst c. exact H0.
  - apply forallb_forall. intros c Hc. apply in_rev in Hc.
    rewrite forallb_forall in Hd. exact (Hd c Hc).
Qed.

Lemma hex_pad_no_newline (w : nat) (n : Z) : no_newline (hex_pad w n) = true.
Proof.
  unfold hex_pad. rewrite no_newline_sla.
  apply forallb_digits; [reflexivity |].
  generalize (S (Z.to_nat (Z.log2 n))). intros fuel. revert n.
  induction fuel as [| f IH]; intros n; [reflexivity |]. cbn [hex_rev forallb].
  apply andb_true_iff. split.
  - unfold hex_digit. pose proof (Z.mod_pos_bound n 16 ltac:(lia)).
    destruct (n mod 16 <? 10); apply code_not_newline; lia.
  - destruct (n <? 16); [reflexivity | apply IH].
Qed.

Lemma pad_no_newline (w : nat) (n : Z) : no_newline (pad w n) = true.
Proof.
  unfold pad. rewrite no_newline_sla.
  apply forallb_digits; [reflexivity |].
  generalize (S (Z.to_nat (Z.log2 n))). intros fuel. revert n.
  induction fuel as [| f IH]; intros n; [reflexivity |]. cbn [digits_rev forallb].
  apply andb_true_iff. split.
  - pose proof (Z.mod_pos_bound n 10 ltac:(lia)). apply code_not_newline; lia.
  - destruct (n <? 10); [reflexivity | apply IH].
Qed.

Lemma dec_no_newline (n : Z) : no_newline (dec n) = true.
Proof. unfold dec. destruct (n <? 0); [cbn [append no_newline] |]; apply pad_no_newline. Qed.

Lemma substring_no_newline (n m : nat) (s : string) :
  no_newline s = true -> no_newline (substring n m s) = true.
Proof.
  revert n m. induction s as [| c s IH]; intros [| n] [| m] H; cbn [substring]; try reflexivity;
    try exact H; cbn [no_newline] in H |- *; apply andb_true_iff in H as [H1 H2];
    try (rewrite H1; cbn [andb]); apply IH; exact H2.
Qed.

Lemma zeros_no_newline (k : nat) :
  no_newline (string_of_list_ascii (repeat "0"%char k)) = true.
Proof. rewrite no_newline_sla. induction k as [| k IH]; [reflexivity | exact IH]. Qed.

Lemma float_repr_no_newline (x : pyfloat) : no_newline (float_repr x) = true.
Proof.
  destruct x as [| [|] | neg m e]; try reflexivity. unfold float_repr.
  destruct (strip_zeros _ _ _) as [m' e']. cbv zeta.
  assert (Hp : no_newline (pad 1 m') = true) by apply pad_no_newline.
  repeat match goal with |- context [if ?c then _ else _] => destruct c end;
    rewrite ?no_newline_app, ?(substring_no_newline _ _ _ Hp), ?zeros_no_newline, ?Hp,
      ?pad_no_newline; reflexivity.
Qed.

Lemma float_json_no_newline (x : pyfloat) : no_newline (float_json x) = true.
Proof. destruct x as [| [|] | neg m e]; try reflexivity. apply float_repr_no_newline. Qed.

Lemma json_esc_no_newline (c : Z) : no_newline (json_esc c) = true.
Proof.
  unfold json_esc.
  destruct (c =? 34); [reflexivity |]. destruct (c =? 92); [reflexivity |].
  destruct (c =? 10); [reflexivity |]. destruct (c =? 13); [reflexivity |].
  destruct (c =? 9); [reflexivity |]. destruct (c =? 8); [reflexivity |].
  destruct (c =? 12); [reflexivity |].
  destruct ((32 <=? c) && (c <=? 126)) eqn:E.
  - apply andb_true_iff in E. rewrite !Z.leb_le in E. unfold chr. cbn [no_newline].
    rewrite andb_true_r. apply code_not_newline; lia.
  - destruct (c <? 65536); rewrite !no_newline_app, ?hex_pad_no_newline; reflexivity.
Qed.

Lemma json_string_no_newline (cs : list Z) : no_newline (json_string cs) = true.
Proof.
  unfold json_string. rewrite !no_newline_app, no_newline_concat by reflexivity.
  replace (forallb no_newline (map json_esc cs)) with true; [reflexivity |].
  symmetry. apply forallb_forall. intros x Hx. apply in_map_iff in Hx.
  destruct Hx as (c & <- & _). apply json_esc_no_newline.
Qed.

Lemma json_key_no_newline (k : pyval) (s : string) :
  json_key k = Ok s -> no_newline s = true.
Proof.
  destruct k as [| [|] | z | x | str | cs | | | | | | | | ]; cbn [json_key]; try discriminate;
    try (intros H; injection H as <-; apply json_string_no_newline).
  unfold bind. destruct (text_of_str str); [| discriminate].
  intros H; injection H as <-; apply json_string_no_newline.
Qed.

(** [dumps] writes one line: its output holds no line feed. *)
Lemma dumps_no_newline : forall (v : pyval) (s : string), dumps v = Ok s -> no_newline s = true.
Proof.
  fix IH 1. intros v s. destruct v as [| [|] | z | x | str | cs | bs | l | kv | l | kv | bs | secs | cls];
    cbn [dumps]; try discriminate.
  - intros H; injection H as <-; reflexivity.
  - intros H; injection H as <-; reflexivity.
  - intros H; injection H as <-; reflexivity.
  - intros H; injection H as <-; apply dec_no_newline.
  - intros H; injection H as <-; apply float_json_no_newline.
  - unfold bind. destruct (text_of_str str); [| discriminate].
    intros H; injection H as <-; apply json_string_no_newline.
  - intros H; injection H as <-; apply json_string_no_newline.
  - match goal with |- bind (?F l) _ = _ -> _ =>
      cut (forall ss, F l = Ok ss -> forallb no_newline ss = true) end.
    { intros Hl. unfold bind at 1. destruct (_ l) as [ss |] eqn:E; [| discriminate].
      intros H; injection H as <-. cbn [no_newline]. apply andb_true_iff. split; [reflexivity |].
      rewrite !no_newline_app, no_newline_concat, (Hl _ eq_refl) by reflexivity. reflexivity. }
    revert l. fix IHl 1. intros [| x l'] ss; cbn.
    + intros H; injection H as <-. reflexivity.
    + unfold bind at 1. destruct (dumps x) as [s1 |] eqn:E1; [| discriminate].
      unfold bind at 1. destruct (_ l') as [ss' |] eqn:E2; [| discriminate].
      intros H; injection H as <-. cbn [forallb].
      rewrite (IH x s1 E1), (IHl l' ss' E2). reflexivity.
  - match goal with |- bind (?F kv) _ = _ -> _ =>
      cut (forall ss, F kv = Ok ss -> forallb no_newline ss = true) end.
    { intros Hl. unfold bind at 1. destruct (_ kv) as [ss |] eqn:E; [| discriminate].
      intros H; injection H as <-. cbn [no_newline]. apply andb_true_iff. split; [reflexivity |].
      rewrite !no_newline_app, no_newline_concat, (Hl _ eq_refl) by reflexivity. reflexivity. }
    revert kv. fix IHl 1. intros [| [k x] kv'] ss; cbn.
    + intros H; injection H as <-. reflexivity.
    + unfold bind at 1. destruct (json_key k) as [ks |] eqn:E0; [| discriminate].
      unfold bind at 1. destruct (dumps x) as [s1 |] eqn:E1; [| discriminate].
      unfold bind at 1. destruct (_ kv') as [ss' |] eqn:E2; [| discriminate].
      intros H; injection H as <-. cbn [forallb].
      rewrite no_newline_app, (json_key_no_newline k ks E0). cbn [no_newline].
      rewrite (IH x s1 E1), (IHl kv' ss' E2).
      reflexivity.
Qed.


Lemma preserves_bind {A B : Type} (r : nat) (m : M A) (k : A -> M B) :
  preserves r m -> (forall a, preserves r (k a)) -> preserves r (mbind m k).
Proof.
  intros Hm Hk st Hl. unfold mbind. destruct (Hm st Hl) as [H1 H2].
  destruct (m st) as [[a | e] st'] eqn:E; cbn [snd] in *; [| auto].
  destruct (Hk a st' ltac:(lia)) as [H3 H4]. split; [congruence | lia].
Qed.

Lemma preserves_try {A : Type} (r : nat) (m : M A) (h : exn -> M A) :
  preserves r m -> (forall e, preserves r (h e)) -> preserves r (try_ m h).
Proof.
  intros Hm Hh st Hl. unfold try_. destruct (Hm st Hl) as [H1 H2].
  destruct (m st) as [[a | e] st'] eqn:E; cbn [snd] in *; [auto |].
  destruct (Hh e st' ltac:(lia)) as [H3 H4]. split; [congruence | lia].
Qed.

Lemma preserves_heap_same {A : Type} (r : nat) (m : M A) :
  (forall st, heap (snd (m st)) = heap st) -> preserves r m.
Proof. intros H st _. rewrite H. auto. Qed.

Lemma nth_error_replace_other {A} (l : list A) (n m : nat) (a : A) :
  m <> n -> nth_error (replace_nth l n a) m = nth_error l m.
Proof.
  revert n m. induction l as [| x l IH]; intros [| n] [| m] H; cbn; auto; try lia.
Qed.

Lemma length_replace_nth {A} (l : list A) (n : nat) (a : A) :
  List.length (replace_nth l n a) = List.length l.
Proof. revert n. induction l as [| x l IH]; intros [| n]; cbn; auto. Qed.

Lemma preserves_alloc {B : Type} (r : nat) (d : list (pyval * pyval)) (k : nat -> M B) :
  (forall n, (r < n)%nat -> preserves r (k n)) -> preserves r (mbind (alloc d) k).
Proof.
  intros Hk st Hl. unfold mbind, alloc.
  destruct (Hk (List.length (heap st)) Hl (set_heap (heap st ++ [d]) st)) as [H1 H2];
    cbn [heap set_heap] in *; rewrite ?length_app in *; cbn in *; [lia |].
  rewrite H1, nth_error_app1 by exact Hl. split; [reflexivity | lia].
Qed.

Lemma log_dict_preserves (f : nat) : forall r0 r, r <> r0 -> preserves r (log_dict f r0).
Proof.
  induction f as [| f IH]; intros r0 r Hne; cbn [log_dict].
  - apply preserves_heap_same. reflexivity.
  - apply preserves_bind; [apply preserves_heap_same; intros st; unfold heap_get;
                           destruct (nth_error _ _); reflexivity |]. intros record.
    apply preserves_bind; [apply preserves_heap_same; reflexivity |]. intros ex.
    apply preserves_bind.
    { intros st Hl. cbn [heap_put snd heap set_heap].
      rewrite nth_error_replace_other, length_replace_nth by exact Hne. auto. }
    intros _. apply preserves_try.
    + repeat (apply preserves_bind; [| intros ?]); apply preserves_heap_same;
        intros st; try reflexivity.
      * unfold heap_get. destruct (nth_error _ _); reflexivity.
      * unfold out_call. destruct (tape st) as [| [|] t]; reflexivity.
      * unfold out_call. destruct (tape st) as [| [|] t]; reflexivity.
      * unfold out_call. destruct (tape st) as [| [|] t]; reflexivity.
    + intros e. unfold log_exception_k, log_error_k. apply preserves_alloc.
      intros n Hn. apply preserves_bind; [apply IH; lia |]. intros _.
      repeat (apply preserves_bind; [| intros ?]); apply preserves_heap_same; reflexivity.
Qed.

Lemma mbind_ok {A B : Type} (m : M A) (k : A -> M B) (st : LState) (a : A) (st' : LState) :
  m st = (Ok a, st') -> mbind m k st = k a st'.
Proof. intros H. unfold mbind. rewrite H. reflexivity. Qed.

Lemma mbind_exc {A B : Type} (m : M A) (k : A -> M B) (st : LState) (e : exn) (st' : LState) :
  m st = (Exc e, st') -> mbind m k st = (Exc e, st').
Proof. intros H. unfold mbind. rewrite H. reflexivity. Qed.

Lemma try_exc {A : Type} (m : M A) (h : exn -> M A) (st : LState) (e : exn) (st' : LState) :
  m st = (Exc e, st') -> try_ m h st = h e st'.
Proof. intros H. unfold try_. rewrite H. reflexivity. Qed.

(** The first steps of [log_dict]: [record.update(Logger.Extra.extras)]
    on the caller's dict object, then the [try]. *)
Lemma log_dict_unfold (f r : nat) (st : LState) (record : list (pyval * pyval)) :
  nth_error (heap st) r = Some record ->
  log_dict (S f) r st =
  try_ (let* d := heap_get r in
        let* s := lift (dumps (PDict d)) in
        let* _ := out_call (Some s) in
        let* _ := out_call (Some nl) in
        let* _ := out_call None in
        incr_lines)
       (fun e => log_exception_k (log_dict f) e "")
       (set_heap (replace_nth (heap st) r (dict_update record (extras st))) st).
Proof.
  intros Hr. cbn [log_dict].
  rewrite (mbind_ok (heap_get r) _ st record st) by (unfold heap_get; rewrite Hr; reflexivity).
  rewrite (mbind_ok get_extras _ st (extras st) st) by reflexivity.
  rewrite (mbind_ok (heap_put r _) _ st tt _) by reflexivity.
  reflexivity.
Qed.

(** C10: [log_dict] updates the caller's dict object with the extras in
    place, and the object keeps that content whether the write succeeds
    or fails. *)
Theorem log_dict_mutates_record (f r : nat) (st : LState) (record : list (pyval * pyval)) :
  nth_error (heap st) r = Some record ->
  nth_error (heap (snd (log_dict (S f) r st))) r = Some (dict_update record (extras st)).
Proof.
  intros Hr. rewrite (log_dict_unfold f r st record Hr).
  assert (Hl : (r < List.length (heap st))%nat)
    by (apply nth_error_Some; congruence).
  match goal with |- context [try_ ?B ?H ?st1] =>
    assert (Hp : preserves r (try_ B H)) end.
  { apply preserves_try.
    - repeat (apply preserves_bind; [| intros ?]); apply preserves_heap_same;
        intros st'; try reflexivity.
      + unfold heap_get. destruct (nth_error (heap st') _); reflexivity.
      + unfold out_call. destruct (tape st') as [| [|] t]; reflexivity.
      + unfold out_call. destruct (tape st') as [| [|] t]; reflexivity.
      + unfold out_call. destruct (tape st') as [| [|] t]; reflexivity.
    - intros e. unfold log_exception_k, log_error_k. apply preserves_alloc.
      intros n Hn. apply preserves_bind; [apply log_dict_preserves; lia |]. intros _.
      repeat (apply preserves_bind; [| intros ?]); apply preserves_heap_same; reflexivity. }
  destruct (Hp (set_heap (replace_nth (heap st) r (dict_update record (extras st))) st))
    as [H1 _]; cbn [heap set_heap]; rewrite ?length_replace_nth; [exact Hl |].
  rewrite H1. exact (nth_error_replace_nth _ _ _ _ Hr).
Qed.

Lemma nth_error_last {A} (l : list A) (x : A) : nth_error (l ++ [x]) (List.length l) = Some x.
Proof. rewrite nth_error_app2, Nat.sub_diag by lia. reflexivity. Qed.

(** When the record cannot be serialized, [log_dict] catches the
    exception and logs an error record [{'osxcollector_error': message}]
    (with the extras) through [log_dict] itself, then writes the message
    to [stderr]; when that error record is written, the call returns
    normally and the line counter goes up by one, for the error line. *)
Theorem log_dict_reports_failure (f r : nat) (st : LState) (record : list (pyval * pyval))
  (e : exn) (s : string) :
  nth_error (heap st) r = Some record ->
  dumps (PDict (dict_update record (extras st))) = Exc e ->
  dumps (PDict (dict_update [(PStr "osxcollector_error", PStr (exception_message e ""))]
                  (extras st))) = Ok s ->
  forallb negb (firstn 3 (tape st)) = true ->
  fst (log_dict (S (S f)) r st) = Ok tt /\
  out (snd (log_dict (S (S f)) r st)) = out st ++ [s; nl] /\
  lines_written (snd (log_dict (S (S f)) r st)) = lines_written st + 1 /\
  errout (snd (log_dict (S (S f)) r st)) =
    errout st ++ ["[ERROR] "; exception_message e "";
                  " - " ++ py_repr (PDict (extras st)) ++ nl]%string.
Proof.
  intros Hr Hd Hs Ht.
  rewrite (log_dict_unfold (S f) r st record Hr).
  rewrite (try_exc _ _ _ e
             (set_heap (replace_nth (heap st) r (dict_update record (extras st))) st)).
  2: { rewrite (mbind_ok (heap_get r) _ _ (dict_update record (extras st)) _)
         by (unfold heap_get; cbn [heap set_heap];
             rewrite (nth_error_replace_nth _ _ _ _ Hr); reflexivity).
       apply mbind_exc. unfold lift. rewrite Hd. reflexivity. }
  unfold log_exception_k, log_error_k.
  rewrite (mbind_ok (alloc _) _ _ _ _ eq_refl).
  erewrite (mbind_ok (log_dict (S f) _) _ _ tt _);
    [| apply log_dict_success; [apply nth_error_last | exact Hs | exact Ht]].
  cbn. repeat split. rewrite <- !app_assoc. reflexivity.
Qed.

(** C7: when serializing the record and the three calls on [output_file]
    succeed, [log_dict] returns normally, appends exactly the JSON text of
    the updated record (one line, without a line feed) and one ['\n'] to
    the output, and adds one to [lines_written]; the record written holds
    the caller's keys and the extras, an extra winning on a shared key. *)
Theorem log_dict_writes_one_line (f r : nat) (st : LState)
  (record : list (pyval * pyval)) (s : string) :
  nth_error (heap st) r = Some record ->
  dumps (PDict (dict_update record (extras st))) = Ok s ->
  forallb negb (firstn 3 (tape st)) = true ->
  fst (log_dict (S f) r st) = Ok tt /\
  out (snd (log_dict (S f) r st)) = out st ++ [s; nl] /\
  no_newline s = true /\
  lines_written (snd (log_dict (S f) r st)) = lines_written st + 1 /\
  nth_error (heap (snd (log_dict (S f) r st))) r = Some (dict_update record (extras st)) /\
  (forall q, dict_get (dict_update record (extras st)) q =
             match dict_get (rev (extras st)) q with
             | Some v => Some v
             | None => dict_get record q
             end).
Proof.
  intros Hr Hs Ht. rewrite (log_dict_success f r st record s Hr Hs Ht). cbn [fst snd out lines_written heap].
  split; [reflexivity |]. split; [reflexivity |].
  split; [exact (dumps_no_newline _ _ Hs) |]. split; [reflexivity |].
  split; [exact (nth_error_replace_nth _ _ _ _ Hr) |].
  intros q. apply dict_get_update.
Qed.

Lemma log_dict_writes_one_line_witness :
  fst (log_dict 1 0 (mkLS [[(PStr "k", PStr "v")]] [(PStr "phase", PStr "x")] [] [] 0 [])) = Ok tt /\
  lines_written (snd (log_dict 1 0 (mkLS [[(PStr "k", PStr "v")]] [(PStr "phase", PStr "x")] [] [] 0 []))) = 1.
Proof.
  edestruct (log_dict_writes_one_line 0 0
               (mkLS [[(PStr "k", PStr "v")]] [(PStr "phase", PStr "x")] [] [] 0 [])
               [(PStr "k", PStr "v")]) as (H1 & _ & _ & H4 & _).
  - reflexivity.
  - vm_compute. reflexivity.
  - reflexivity.
  - split; [exact H1 | exact H4].
Defined.

Lemma log_dict_reports_failure_witness :
  fst (log_dict 2 0 (mkLS [[(PStr "k", PObj "Foo")]] [] [] [] 0 [])) = Ok tt /\
  lines_written (snd (log_dict 2 0 (mkLS [[(PStr "k", PObj "Foo")]] [] [] [] 0 []))) = 1.
Proof.
  edestruct (log_dict_reports_failure 0 0 (mkLS [[(PStr "k", PObj "Foo")]] [] [] [] 0 [])
               [(PStr "k", PObj "Foo")] TypeError) as (H1 & _ & H3 & _).
  - reflexivity.
  - vm_compute. reflexivity.
  - vm_compute. reflexivity.
  - reflexivity.
  - split; [exact H1 | exact H3].
Defined.

Lemma repeat_true_shift (n : nat) (t : list bool) :
  true :: repeat true n ++ t = repeat true n ++ true :: t.
Proof. induction n as [| n IH]; cbn; [reflexivity | now rewrite IH]. Qed.

(** C8 (code bug): when every call on [output_file] raises [IOError],
    [log_dict] does not swallow the failure: its [except] calls
    [log_exception], which logs the error record through [log_dict], whose
    write fails again, and so on until the recursion limit; the
    [RuntimeError] raised inside the handlers reaches the caller, nothing
    has been written and no line has been counted.  [tape] begins with one
    failing call per recursion level available. *)
Theorem log_dict_write_failure_escapes (f r : nat) (st : LState) (t : list bool) :
  (r < List.length (heap st))%nat ->
  tape st = repeat true f ++ t ->
  fst (log_dict f r st) = Exc RuntimeError /\
  out (snd (log_dict f r st)) = out st /\
  lines_written (snd (log_dict f r st)) = lines_written st /\
  errout (snd (log_dict f r st)) = errout st.
Proof.
  revert r st t. induction f as [| f IH]; intros r st t Hr Ht; [cbn; auto |].
  destruct (nth_error (heap st) r) as [record |] eqn:Er;
    [| apply nth_error_None in Er; lia].
  rewrite (log_dict_unfold f r st record Er).
  set (st1 := set_heap (replace_nth (heap st) r (dict_update record (extras st))) st).
  assert (Hh : List.length (heap st1) = List.length (heap st))
    by (cbn [st1 heap set_heap]; apply length_replace_nth).
  (* the body raises, leaving the output untouched and a tape that still
     begins with [f] failing calls *)
  assert (Hbody : exists e st2 t2,
    (let* d := heap_get r in
     let* s := lift (dumps (PDict d)) in
     let* _ := out_call (Some s) in
     let* _ := out_call (Some nl) in
     let* _ := out_call None in
     incr_lines) st1 = (Exc e, st2) /\
    heap st2 = heap st1 /\ extras st2 = extras st /\ out st2 = out st /\
    lines_written st2 = lines_written st /\ errout st2 = errout st /\
    tape st2 = repeat true f ++ t2).
  { rewrite (mbind_ok (heap_get r) _ _ (dict_update record (extras st)) st1)
      by (unfold heap_get; cbn [st1 heap set_heap];
          rewrite (nth_error_replace_nth _ _ _ _ Er); reflexivity).
    cbv beta. match goal with |- context [dumps ?x] => destruct (dumps x) as [s | e] eqn:Ed end.
    - rewrite (mbind_ok (lift _) _ _ s st1) by reflexivity.
      exists IOError, (mkLS (heap st1) (extras st1) (out st1) (repeat true f ++ t)
                     (lines_written st1) (errout st1)), t.
      rewrite mbind_exc with (e := IOError)
        (st' := mkLS (heap st1) (extras st1) (out st1) (repeat true f ++ t)
                     (lines_written st1) (errout st1)).
      + cbn [st1 heap extras out lines_written errout tape set_heap]. repeat split.
      + unfold out_call. cbn [st1 tape set_heap]. rewrite Ht. reflexivity.
    - eexists e, st1, (true :: t). rewrite mbind_exc with (e := e) (st' := st1).
      + cbn [st1 heap extras out lines_written errout tape set_heap].
        rewrite <- repeat_true_shift. repeat split. exact Ht.
      + reflexivity. }
  destruct Hbody as (e & st2 & t2 & Hb & H1 & H2 & H3 & H4 & H5 & H6).
  rewrite (try_exc _ _ _ e st2 Hb).
  unfold log_exception_k, log_error_k.
  rewrite (mbind_ok (alloc _) _ _ _ _ eq_refl).
  set (st3 := set_heap (heap st2 ++ [[(PStr "osxcollector_error", PStr (exception_message e ""))]]) st2).
  assert (Hr3 : (List.length (heap st2) < List.length (heap st3))%nat)
    by (cbn [st3 heap set_heap]; rewrite length_app; cbn; lia).
  destruct (IH (List.length (heap st2)) st3 t2 Hr3 H6) as (G1 & G2 & G3 & G4).
  destruct (log_dict f (List.length (heap st2)) st3) as [res st4] eqn:E4.
  cbn [fst snd] in G1, G2, G3, G4. subst res.
  rewrite (mbind_exc (log_dict f _) _ _ RuntimeError st4 E4).
  cbn [fst snd]. rewrite G2, G3, G4. cbn [st3 out lines_written errout set_heap].
  auto.
Qed.

Lemma log_dict_write_failure_escapes_witness :
  (0 < List.length (heap (mkLS [[(PStr "k", PStr "v")]] [] [] (repeat true 3) 0 [])))%nat /\
  tape (mkLS [[(PStr "k", PStr "v")]] [] [] (repeat true 3) 0 []) = repeat true 3 ++ [] /\
  fst (log_dict 3 0 (mkLS [[(PStr "k", PStr "v")]] [] [] (repeat true 3) 0 [])) = Exc RuntimeError /\
  out (snd (log_dict 3 0 (mkLS [[(PStr "k", PStr "v")]] [] [] (repeat true 3) 0 []))) = [] /\
  lines_written (snd (log_dict 3 0 (mkLS [[(PStr "k", PStr "v")]] [] [] (repeat true 3) 0 []))) = 0 /\
  errout (snd (log_dict 3 0 (mkLS [[(PStr "k", PStr "v")]] [] [] (repeat true 3) 0 []))) = [].
Proof.
  split; [cbn; lia |]. split; [reflexivity |].
  exact (log_dict_write_failure_escapes 3 0 (mkLS [[(PStr "k", PStr "v")]] [] [] (repeat true 3) 0 []) []
           ltac:(cbn; lia) eq_refl).
Defined.

Lemma log_dict_mutates_record_witness :
  nth_error (heap (snd (log_dict 3 0 (mkLS [[(PStr "k", PStr "v")]] [(PStr "phase", PStr "x")] [] [true] 0 [])))) 0 =
  Some (dict_update [(PStr "k", PStr "v")] [(PStr "phase", PStr "x")]).
Proof.
  apply (log_dict_mutates_record 2 0 (mkLS [[(PStr "k", PStr "v")]] [(PStr "phase", PStr "x")] [] [true] 0 [])).
  reflexivity.
Defined.

(** ** Paths *)

Lemma str_app_assoc (a b c : string) : ((a ++ b) ++ c = a ++ (b ++ c))%string.
Proof. induction a as [| x a IH]; cbn; [reflexivity | now rewrite IH]. Qed.

Lemma str_app_nil (a : string) : (a ++ "")%string = a.
Proof. induction a as [| x a IH]; cbn; [reflexivity | now rewrite IH]. Qed.

Lemma posix_join_extends (p : list string) : forall acc,
  Forall (fun b => startswith_slash b = false) p ->
  exists rest, posix_join acc p = (acc ++ rest)%string.
Proof.
  induction p as [| b p IH]; intros acc Hp.
  - exists ""%string. symmetry. apply str_app_nil.
  - inversion Hp as [| ? ? Hb Hp']; subst. unfold posix_join. cbn [fold_left].
    rewrite Hb. fold (posix_join (if (acc =? "")%string || endswith_slash acc
                                  then (acc ++ b)%string else (acc ++ "/" ++ b)%string) p).
    destruct ((acc =? "")%string || endswith_slash acc).
    + destruct (IH (acc ++ b)%string Hp') as [r Hr]. exists (b ++ r)%string.
      now rewrite Hr, str_app_assoc.
    + destruct (IH (acc ++ "/" ++ b)%string Hp') as [r Hr]. exists ("/" ++ b ++ r)%string.
      now rewrite Hr, !str_app_assoc.
Qed.

(** [pathjoin] keeps its first argument: as long as no later argument
    starts with two slashes, the joined path begins with [path]. *)
Theorem pathjoin_extends_path (path : string) (args : list string) :
  Forall (fun a => startswith_slash (_relative_path a) = false) args ->
  exists rest, pathjoin path args = (path ++ rest)%string.
Proof.
  intros H. destruct args as [| a args].
  - exists ""%string. cbn. symmetry. apply str_app_nil.
  - apply posix_join_extends. apply Forall_map. exact H.
Qed.

Lemma pathjoin_extends_path_witness :
  Forall (fun a => startswith_slash (_relative_path a) = false)
         ["Users"; "/alice"; "Library/"]%string /\
  exists rest, pathjoin "/mnt/backup" ["Users"; "/alice"; "Library/"]%string =
               ("/mnt/backup" ++ rest)%string.
Proof.
  split; [repeat constructor |].
  apply (pathjoin_extends_path "/mnt/backup" ["Users"; "/alice"; "Library/"]%string).
  repeat constructor.
Defined.

(** An argument of [pathjoin] that starts with two slashes throws away
    everything before it: the join starts again from that argument with one
    slash dropped. *)
Theorem pathjoin_restarts (path a : string) (pre post : list string) :
  startswith_slash (_relative_path a) = true ->
  pathjoin path (pre ++ a :: post) = pathjoin (_relative_path a) post.
Proof.
  intros Ha.
  assert (E : pathjoin path (pre ++ a :: post) =
              posix_join path (map _relative_path (pre ++ a :: post)))
    by (destruct pre; reflexivity).
  rewrite E, map_app. unfold posix_join. rewrite fold_left_app. cbn [map fold_left].
  rewrite Ha. destruct post; reflexivity.
Qed.

Lemma pathjoin_restarts_witness :
  startswith_slash (_relative_path "//etc") = true /\
  pathjoin "/mnt/backup" (app ["Users"%string] ("//etc"%string :: ["hosts"%string])) =
  pathjoin (_relative_path "//etc") ["hosts"%string].
Proof.
  split; [vm_compute; reflexivity |].
  apply pathjoin_restarts. vm_compute. reflexivity.
Defined.

Lemma endswith_slash_app (s1 s2 : string) :
  s2 <> ""%string -> endswith_slash (s1 ++ s2) = endswith_slash s2.
Proof.
  intros H. induction s1 as [| c s1 IH]; cbn [append]; [reflexivity |].
  rewrite <- IH. destruct (s1 ++ s2)%string eqn:E; [| reflexivity].
  destruct s1, s2; cbn in E; congruence.
Qed.

Lemma concat_empty_cons (x : string) (l : list string) :
  String.concat "" (x :: l) = (x ++ String.concat "" l)%string.
Proof. destruct l; cbn [String.concat]; [symmetry; apply str_app_nil | reflexivity]. Qed.

Lemma posix_join_separated (args : list string) : forall acc,
  acc <> ""%string -> endswith_slash acc = false ->
  Forall (fun b => b <> ""%string /\ startswith_slash b = false /\ endswith_slash b = false) args ->
  posix_join acc args = (acc ++ String.concat "" (map (fun b => "/" ++ b) args))%string.
Proof.
  induction args as [| b args IH]; intros acc Hne Hend Hargs.
  - cbn. symmetry. apply str_app_nil.
  - inversion Hargs as [| ? ? [Hb [Hbs Hbe]] Hargs']; subst.
    unfold posix_join. cbn [fold_left]. rewrite Hbs.
    replace ((acc =? "")%string || endswith_slash acc) with false
      by (rewrite Hend; destruct (String.eqb_spec acc ""); [contradiction | reflexivity]).
    fold (posix_join (acc ++ "/" ++ b)%string args).
    rewrite IH; [| destruct acc; [contradiction | discriminate] | | exact Hargs'].
    + cbn [map]. rewrite concat_empty_cons, !str_app_assoc. reflexivity.
    + rewrite endswith_slash_app by discriminate.
      destruct b; [contradiction |]. exact Hbe.
Qed.

(** [pathjoin] puts exactly one ['/'] between its parts when the first
    part is non-empty and does not end with a slash and every later part,
    once a leading slash is dropped, is non-empty and has no slash at either
    end. *)
Theorem pathjoin_separates (path : string) (args : list string) :
  path <> ""%string -> endswith_slash path = false ->
  Forall (fun a => _relative_path a <> ""%string /\ startswith_slash (_relative_path a) = false /\
                   endswith_slash (_relative_path a) = false) args ->
  pathjoin path args = (path ++ String.concat "" (map (fun a => "/" ++ _relative_path a) args))%string.
Proof.
  intros Hne Hend Hargs. destruct args as [| a args].
  - cbn. symmetry. apply str_app_nil.
  - cbn [pathjoin]. rewrite posix_join_separated; [| exact Hne | exact Hend |].
    + rewrite map_map. reflexivity.
    + apply Forall_map. exact Hargs.
Qed.

Lemma pathjoin_separates_witness :
  "/Volumes/disk"%string <> ""%string /\ endswith_slash "/Volumes/disk" = false /\
  pathjoin "/Volumes/disk" ["/Users"; "alice"]%string =
  ("/Volumes/disk" ++ String.concat "" (map (fun a => "/" ++ _relative_path a) ["/Users"; "alice"]))%string.
Proof.
  split; [discriminate | split; [reflexivity |]].
  apply pathjoin_separates; [discriminate | reflexivity |].
  repeat constructor; discriminate.
Defined.

(** ** [_get_homedirs] *)

Lemma ignored_are_dot_files (v : string) :
  existsb (String.eqb v) ignored_files = true -> String.prefix "." v = true.
Proof.
  unfold ignored_files. cbn [existsb].
  destruct (String.eqb_spec v ".DS_Store"); [subst; reflexivity |].
  destruct (String.eqb_spec v ".localized"); [subst; reflexivity |]. discriminate.
Qed.

Lemma filter_dot_ignored (l : list string) :
  filter (fun u => negb (String.prefix "." u))
         (filter (fun v => negb (existsb (String.eqb v) ignored_files)) l) =
  filter (fun u => negb (String.prefix "." u)) l.
Proof.
  induction l as [| v l IH]; [reflexivity |]. cbn [filter].
  destruct (existsb (String.eqb v) ignored_files) eqn:E; cbn [negb].
  - rewrite (ignored_are_dot_files v E). exact IH.
  - cbn [filter]. destruct (String.prefix "." v); cbn [negb]; congruence.
Qed.

Lemma homedirs_loop_spec (root : string) (l : list string) :
  map user_name (homedirs_loop root l) = filter (fun u => negb (String.prefix "." u)) l /\
  Forall (fun h => path h = pathjoin root ["Users"; user_name h]%string) (homedirs_loop root l).
Proof.
  induction l as [| v l [IH1 IH2]]; [split; [reflexivity | constructor] |].
  cbn [homedirs_loop filter]. destruct (negb (String.prefix "." v)); [| auto].
  split; [cbn [map user_name]; congruence | constructor; [reflexivity | exact IH2]].
Qed.

(** [_get_homedirs] lists, in directory order, the entries of
    [ROOT_PATH/Users] whose name does not start with a dot (which also
    removes the two names [listdir] ignores), each with the path
    [pathjoin(ROOT_PATH, 'Users', name)]. *)
Theorem get_homedirs_entries (isdir : string -> bool) (os_listdir : string -> option (list string))
    (ROOT_PATH : string) (names : list string) :
  isdir (pathjoin ROOT_PATH ["Users"%string]) = true ->
  os_listdir (pathjoin ROOT_PATH ["Users"%string]) = Some names ->
  exists hs, _get_homedirs isdir os_listdir ROOT_PATH = Some hs /\
    map user_name hs = filter (fun u => negb (String.prefix "." u)) names /\
    Forall (fun h => path h = pathjoin ROOT_PATH ["Users"; user_name h]%string) hs.
Proof.
  intros Hd Hl. unfold _get_homedirs, listdir. rewrite Hd, Hl. cbn [negb option_map].
  eexists. split; [reflexivity |].
  destruct (homedirs_loop_spec ROOT_PATH
              (filter (fun v => negb (existsb (String.eqb v) ignored_files)) names)) as [H1 H2].
  split; [rewrite H1; apply filter_dot_ignored | exact H2].
Qed.

Lemma get_homedirs_entries_witness :
  exists hs, _get_homedirs (fun _ => true)
               (fun _ => Some [".DS_Store"; "alice"; ".localized"; "Shared"; ".hidden"]%string)
               "/"%string = Some hs /\
    map user_name hs = filter (fun u => negb (String.prefix "." u))
                              [".DS_Store"; "alice"; ".localized"; "Shared"; ".hidden"]%string /\
    Forall (fun h => path h = pathjoin "/" ["Users"; user_name h]%string) hs.
Proof. apply get_homedirs_entries; reflexivity. Defined.

(** ** [DictUtils.get_deep] *)

Lemma seq_index_exc {A : Type} (l : list A) (i : Z) (e : exn) :
  seq_index l i = Exc e -> e = IndexError.
Proof.
  unfold seq_index. destruct (_ && _); [destruct (nth_error _ _) |]; congruence.
Qed.










(** A path given as a list descends into a dict one key at a time: when
    [key] is in the dict, looking up [[key]] gives its value, and a longer
    path continues from that value. *)
Theorem get_deep_descends (kv : list (pyval * pyval)) (key v default : pyval) (rest : list pyval) :
  hashable key = true -> dict_get kv key = Some v ->
  DictUtils.get_deep (PDict kv) (PList [key]) default = Ok v /\
  (rest <> [] -> DictUtils.get_deep (PDict kv) (PList (key :: rest)) default =
                 DictUtils.get_deep v (PList rest) default).
Proof.
  intros Hh Hg. unfold DictUtils.get_deep, DictUtils._link_path_to_chain.
  cbn [key_eqb knf bind]. unfold DictUtils._get_deep_by_chain.
  cbn [DictUtils.walk]. unfold DictUtils.step. cbn [getitem]. rewrite Hh, Hg. cbn [bind].
  split; [reflexivity |]. intros Hr. destruct rest as [| l rest]; [contradiction |]. reflexivity.
Qed.

Lemma get_deep_descends_witness :
  hashable (PStr "a") = true /\
  dict_get [(PStr "a", PDict [(PStr "b", PInt 7)])] (PStr "a") = Some (PDict [(PStr "b", PInt 7)]) /\
  DictUtils.get_deep (PDict [(PStr "a", PDict [(PStr "b", PInt 7)])]) (PList [PStr "a"]) PNone =
    Ok (PDict [(PStr "b", PInt 7)]) /\
  ([PStr "b"] <> [] ->
   DictUtils.get_deep (PDict [(PStr "a", PDict [(PStr "b", PInt 7)])]) (PList [PStr "a"; PStr "b"]) PNone =
   DictUtils.get_deep (PDict [(PStr "b", PInt 7)]) (PList [PStr "b"]) PNone).
Proof.
  split; [reflexivity | split; [reflexivity |]].
  apply get_deep_descends; reflexivity.
Defined.

Lemma digit_code (n : Z) :
  Z.of_nat (nat_of_ascii (ascii_of_nat (Z.to_nat (n mod 10 + 48)))) = n mod 10 + 48.
Proof.
  pose proof (Z.mod_pos_bound n 10 ltac:(lia)).
  rewrite Ascii.nat_ascii_embedding by lia. lia.
Qed.

Lemma digits_value_snoc (acc : Z) (xs : list Z) (c : Z) :
  digits_value acc (xs ++ [c]) =
  match digits_value acc xs with
  | Some v => if is_digit c then Some (10 * v + (c - 48)) else None
  | None => None
  end.
Proof.
  revert acc. induction xs as [| x xs IH]; intros acc; cbn [app digits_value].
  - destruct (is_digit c); reflexivity.
  - destruct (is_digit x); [apply IH | reflexivity].
Qed.

Lemma digit_codes_value (f : nat) : forall n,
  0 <= n < 10 ^ Z.of_nat f -> digits_value 0 (digit_codes f n) = Some n.
Proof.
  unfold digit_codes. induction f as [| f IH]; intros n Hn.
  - cbn in Hn. cbn. f_equal. lia.
  - cbn [digits_rev rev]. rewrite map_app. cbn [map]. rewrite digits_value_snoc, digit_code.
    pose proof (Z.mod_pos_bound n 10 ltac:(lia)).
    assert (Hd : is_digit (n mod 10 + 48) = true)
      by (unfold is_digit; apply andb_true_iff; split; apply Z.leb_le; lia).
    destruct (n <? 10) eqn:E.
    + apply Z.ltb_lt in E. cbn [rev map digits_value]. rewrite Hd. f_equal.
      rewrite Z.mod_small by lia. lia.
    + apply Z.ltb_ge in E. rewrite IH, Hd.
      * f_equal. pose proof (Z.div_mod n 10 ltac:(lia)). lia.
      * rewrite Nat2Z.inj_succ, Z.pow_succ_r in Hn by lia.
        split; [apply Z.div_pos; lia | apply Z.div_lt_upper_bound; lia].
Qed.

Lemma digit_codes_digits (f : nat) (n : Z) :
  forall c, In c (digit_codes f n) -> 48 <= c <= 57.
Proof.
  unfold digit_codes. intros c Hc. apply in_map_iff in Hc. destruct Hc as [a [<- Ha]].
  apply in_rev in Ha. revert n Ha. induction f as [| f IH]; intros n Ha; [contradiction |].
  cbn [digits_rev] in Ha. destruct Ha as [<- | Ha].
  - rewrite digit_code. pose proof (Z.mod_pos_bound n 10 ltac:(lia)). lia.
  - destruct (n <? 10); [contradiction | exact (IH _ Ha)].
Qed.

Lemma digit_codes_nonempty (f : nat) (n : Z) : digit_codes (S f) n <> [].
Proof.
  unfold digit_codes. cbn [digits_rev rev]. rewrite map_app.
  intros H. apply app_eq_nil in H. destruct H as [_ H]. discriminate.
Qed.

Lemma log2_fuel (n : Z) : 0 <= n -> n < 10 ^ Z.of_nat (S (Z.to_nat (Z.log2 n))).
Proof.
  intros Hn. rewrite Nat2Z.inj_succ, Z2Nat.id by apply Z.log2_nonneg.
  destruct (Z.eq_dec n 0) as [-> | Hne]; [cbn; lia |].
  destruct (Z.log2_spec n ltac:(lia)) as [_ H].
  eapply Z.lt_le_trans; [exact H |].
  apply Z.pow_le_mono_l. split; [lia | lia].
Qed.

Lemma codes_pad1 (n : Z) :
  codes_of_string (pad 1 n) = digit_codes (S (Z.to_nat (Z.log2 n))) n.
Proof.
  unfold pad, codes_of_string, digit_codes. rewrite list_ascii_of_string_of_list_ascii.
  cbn [digits_rev rev]. rewrite length_app. cbn [List.length].
  replace (1 - (List.length (rev (if (n <? 10)%Z then [] else
             digits_rev (Z.to_nat (Z.log2 n)) (n / 10))) + 1))%nat with 0%nat by lia.
  reflexivity.
Qed.

Lemma drop_while_keep (p : Z -> bool) (c : Z) (cs : list Z) :
  p c = false -> drop_while p (c :: cs) = c :: cs.
Proof. intros H. cbn. rewrite H. reflexivity. Qed.

Lemma digits_not_space (c : Z) : 45 <= c <= 57 -> is_space c = false.
Proof.
  intros H. unfold is_space. apply orb_false_iff. split; [apply Z.eqb_neq; lia |].
  apply andb_false_iff. right. apply Z.leb_gt. lia.
Qed.

Lemma strip_keep (c : Z) (cs : list Z) (d : Z) :
  45 <= c <= 57 -> 45 <= d <= 57 -> strip (c :: cs ++ [d]) = c :: cs ++ [d].
Proof.
  intros Hc Hd. unfold strip. rewrite drop_while_keep by (apply digits_not_space; exact Hc).
  assert (E : rev (c :: cs ++ [d]) = d :: rev (c :: cs))
    by (rewrite app_comm_cons, rev_app_distr; reflexivity).
  rewrite E, drop_while_keep by (apply digits_not_space; exact Hd).
  rewrite <- E. apply rev_involutive.
Qed.

Lemma strip_one (c : Z) : 45 <= c <= 57 -> strip [c] = [c].
Proof.
  intros Hc. unfold strip. rewrite drop_while_keep by (apply digits_not_space; exact Hc).
  cbn [rev app]. rewrite drop_while_keep by (apply digits_not_space; exact Hc). reflexivity.
Qed.

Lemma strip_digits (cs : list Z) :
  cs <> [] -> (forall c, In c cs -> 45 <= c <= 57) -> strip cs = cs.
Proof.
  intros Hne H. destruct cs as [| c cs]; [contradiction |].
  destruct (rev cs) as [| d cs'] eqn:E.
  - apply (f_equal (@rev Z)) in E. rewrite rev_involutive in E. subst cs.
    apply strip_one, H. left. reflexivity.
  - apply (f_equal (@rev Z)) in E. rewrite rev_involutive in E. cbn [rev] in E. subst cs.
    apply strip_keep; apply H; [left; reflexivity |].
    right. apply in_or_app. right. left. reflexivity.
Qed.

Lemma parse_int_digits (cs : list Z) (v : Z) :
  (forall c, In c cs -> 48 <= c <= 57) -> cs <> [] -> digits_value 0 cs = Some v ->
  parse_int cs = Some v /\ parse_int (45 :: cs) = Some (- v).
Proof.
  intros Hd Hne Hv. unfold parse_int.
  rewrite strip_digits by (auto; intros c Hc; specialize (Hd c Hc); lia).
  rewrite strip_digits
    by (first [discriminate | intros c [<- | Hc]; [lia | specialize (Hd c Hc); lia]]).
  destruct cs as [| c cs]; [contradiction |].
  assert (Hc : 48 <= c <= 57) by (apply Hd; left; reflexivity).
  split; [| cbn [option_map]; rewrite Hv; reflexivity].
  assert (c = 48 \/ c = 49 \/ c = 50 \/ c = 51 \/ c = 52 \/ c = 53 \/ c = 54 \/ c = 55 \/
          c = 56 \/ c = 57) as Hcs by lia.
  destruct Hcs as [-> | [-> | [-> | [-> | [-> | [-> | [-> | [-> | [-> | ->]]]]]]]]]; exact Hv.
Qed.

(** [int(str(i)) == i]: the decimal text of an integer reads back as it. *)
Lemma parse_int_dec (i : Z) : parse_int (codes_of_string (dec i)) = Some i.
Proof.
  unfold dec. destruct (i <? 0) eqn:E.
  - apply Z.ltb_lt in E. unfold codes_of_string. cbn [list_ascii_of_string append map].
    fold (codes_of_string (pad 1 (- i))). rewrite codes_pad1.
    replace (Z.of_nat (nat_of_ascii "-"%char)) with 45 by reflexivity.
    destruct (parse_int_digits (digit_codes (S (Z.to_nat (Z.log2 (- i)))) (- i)) (- i))
      as [_ H]; [apply digit_codes_digits | apply digit_codes_nonempty |
                 apply digit_codes_value; split; [lia | apply log2_fuel; lia] |].
    rewrite H. f_equal. lia.
  - apply Z.ltb_ge in E. rewrite codes_pad1.
    apply parse_int_digits; [apply digit_codes_digits | apply digit_codes_nonempty |
                             apply digit_codes_value; split; [lia | apply log2_fuel; lia]].
Qed.

Lemma string_of_codes_of_string (s : string) : string_of_codes (codes_of_string s) = s.
Proof.
  unfold string_of_codes, codes_of_string. rewrite map_map.
  rewrite (map_ext_in _ (fun a => a)), map_id; [apply string_of_list_ascii_of_string |].
  intros a _. rewrite Nat2Z.id. apply Ascii.ascii_nat_embedding.
Qed.

Lemma split_dot_no_dot (cs : list Z) : (forall c, In c cs -> c <> 46) -> DictUtils.split_dot cs = [cs].
Proof.
  induction cs as [| c cs IH]; intros H; [reflexivity |]. cbn [DictUtils.split_dot].
  replace (c =? 46) with false by (symmetry; apply Z.eqb_neq; apply H; left; reflexivity).
  rewrite IH by (intros x Hx; apply H; right; exact Hx). reflexivity.
Qed.

Lemma dec_codes (i : Z) :
  codes_of_string (dec i) <> [] /\
  forall c, In c (codes_of_string (dec i)) -> c = 45 \/ 48 <= c <= 57.
Proof.
  unfold dec. destruct (i <? 0).
  - unfold codes_of_string. cbn [list_ascii_of_string append map].
    fold (codes_of_string (pad 1 (- i))). rewrite codes_pad1.
    split; [discriminate |]. intros c [<- | Hc]; [left; reflexivity |].
    right. exact (digit_codes_digits _ _ _ Hc).
  - rewrite codes_pad1. split; [apply digit_codes_nonempty |].
    intros c Hc. right. exact (digit_codes_digits _ _ _ Hc).
Qed.

(** A path that is the decimal text of an integer [i] indexes a list, as
    [int(link)] does in the fallback: the result is [l[i]], a negative [i]
    counting from the end; an [i] out of range raises [IndexError], which
    [get_deep] does not catch. *)
Theorem get_deep_index_text (l : list pyval) (n : Z) (default : pyval) :
  DictUtils.get_deep (PList l) (PStr (dec n)) default = seq_index l n.
Proof.
  destruct (dec_codes n) as [Hne Hd].
  unfold DictUtils.get_deep, DictUtils._link_path_to_chain.
  assert (Hk : key_eqb (PStr (dec n)) (PStr "") = false).
  { unfold key_eqb, knf. destruct (all_ascii (codes_of_string (dec n))); [| reflexivity].
    cbn [keynf_eqb codes_of_string list_ascii_of_string map all_ascii forallb].
    destruct (codes_of_string (dec n)); [contradiction | reflexivity]. }
  rewrite Hk. rewrite split_dot_no_dot
    by (intros c Hc; destruct (Hd c Hc); lia).
  cbn [map bind]. rewrite string_of_codes_of_string.
  unfold DictUtils._get_deep_by_chain. cbn [DictUtils.walk]. unfold DictUtils.step.
  cbn [getitem index_of py_int bind]. rewrite parse_int_dec. cbn [getitem index_of bind].
  destruct (seq_index l n) as [v | e] eqn:E; [reflexivity |].
  rewrite (seq_index_exc _ _ _ E). reflexivity.
Qed.

(** ** [_hash_file] and [_datetime_to_string] *)

Lemma fold_app_acc (chunks : list (list Z)) : forall acc,
  fold_left (fun fed chunk => fed ++ chunk) chunks acc = acc ++ List.concat chunks.
Proof.
  induction chunks as [| c chunks IH]; intros acc; cbn [fold_left List.concat].
  - symmetry. apply app_nil_r.
  - rewrite IH. symmetry. apply app_assoc.
Qed.

Lemma read_chunks_concat (n fuel : nat) : forall bs, List.concat (read_chunks n fuel bs) = bs.
Proof.
  induction fuel as [| f IH]; intros [| b bs]; cbn [read_chunks List.concat]; try reflexivity.
  - apply app_nil_r.
  - rewrite IH. apply firstn_skipn.
Qed.

(** [_hash_file] digests the whole content of a readable file: the three
    digests are those of the file's bytes taken in one piece, however the
    [CHUNK_SIZE] reads cut them. *)
Theorem hash_file_whole_content (md5 sha1 sha256 : list Z -> string)
    (fs : string -> option fentry) (file_path : string) (bs : list Z) :
  fs file_path = Some (Readable bs) ->
  _hash_file md5 sha1 sha256 fs file_path = hexdigests md5 sha1 sha256 bs.
Proof.
  intros H. unfold _hash_file. rewrite H, fold_app_acc, read_chunks_concat. reflexivity.
Qed.

Lemma hash_file_whole_content_witness :
  fs_set (fun _ => None) "/bin/ls" (Some (Readable [207; 250; 237; 254])) "/bin/ls"%string =
    Some (Readable [207; 250; 237; 254]) /\
  _hash_file string_of_codes string_of_codes string_of_codes
    (fs_set (fun _ => None) "/bin/ls" (Some (Readable [207; 250; 237; 254]))) "/bin/ls" =
  hexdigests string_of_codes string_of_codes string_of_codes [207; 250; 237; 254].
Proof.
  split; [reflexivity |]. apply hash_file_whole_content. reflexivity.
Defined.

Lemma civil_md_bounds (z : Z) :
  1 <= snd (fst (civil_from_days z)) <= 12 /\ 1 <= snd (civil_from_days z) <= 31.
Proof.
  unfold civil_from_days. cbv beta zeta.
  assert (Hdoe : 0 <= z + 719468 - (z + 719468) / 146097 * 146097 < 146097)
    by (pose proof (Z.div_mod (z + 719468) 146097 ltac:(lia));
        pose proof (Z.mod_pos_bound (z + 719468) 146097 ltac:(lia)); lia).
  generalize dependent (z + 719468 - (z + 719468) / 146097 * 146097). intros doe Hdoe.
  assert (Hd : 0 <= doe - (365 * ((doe - doe / 1460 + doe / 36524 - doe / 146096) / 365) +
                           (doe - doe / 1460 + doe / 36524 - doe / 146096) / 365 / 4 -
                           (doe - doe / 1460 + doe / 36524 - doe / 146096) / 365 / 100) <= 365)
    by (Z.div_mod_to_equations; lia).
  generalize dependent (doe - (365 * ((doe - doe / 1460 + doe / 36524 - doe / 146096) / 365) +
                           (doe - doe / 1460 + doe / 36524 - doe / 146096) / 365 / 4 -
                           (doe - doe / 1460 + doe / 36524 - doe / 146096) / 365 / 100)).
  intros doy Hd.
  destruct ((5 * doy + 2) / 153 <? 10) eqn:E; [apply Z.ltb_lt in E | apply Z.ltb_ge in E];
    destruct (_ <=? 2); cbn [fst snd]; Z.div_mod_to_equations; lia.
Qed.

Lemma length_sla (l : list ascii) : String.length (string_of_list_ascii l) = List.length l.
Proof. induction l as [| a l IH]; cbn; congruence. Qed.

Lemma str_length_app (a b : string) : String.length (a ++ b) = (String.length a + String.length b)%nat.
Proof. induction a as [| x a IH]; cbn; congruence. Qed.

Lemma digits_rev_len_le (f : nat) : forall n k,
  0 <= n < 10 ^ Z.of_nat k -> (1 <= k)%nat -> (List.length (digits_rev f n) <= k)%nat.
Proof.
  induction f as [| f IH]; intros n k Hn Hk; cbn [digits_rev List.length]; [lia |].
  destruct (n <? 10) eqn:E; cbn [List.length]; [lia |].
  apply Z.ltb_ge in E. destruct k as [| [| k]]; [lia | cbn in Hn; lia |].
  assert (List.length (digits_rev f (n / 10)) <= S k)%nat; [| lia].
  apply IH; [| lia]. split; [apply Z.div_pos; lia |].
  apply Z.div_lt_upper_bound; [lia |].
  replace (Z.of_nat (S (S k))) with (Z.succ (Z.of_nat (S k))) in Hn by lia.
  rewrite Z.pow_succ_r in Hn by lia. lia.
Qed.

Lemma digits_rev_len_ge (f : nat) : forall n j,
  10 ^ Z.of_nat j <= n -> (j < f)%nat -> (j < List.length (digits_rev f n))%nat.
Proof.
  induction f as [| f IH]; intros n j Hn Hj; [lia |]. cbn [digits_rev].
  destruct j as [| j]; [cbn [List.length]; lia |].
  assert (H10 : 10 <= n).
  { eapply Z.le_trans; [| exact Hn]. rewrite Nat2Z.inj_succ, Z.pow_succ_r by lia.
    pose proof (Z.pow_pos_nonneg 10 (Z.of_nat j) ltac:(lia) ltac:(lia)). lia. }
  replace (n <? 10) with false by (symmetry; apply Z.ltb_ge; lia). cbn [List.length].
  assert (j < List.length (digits_rev f (n / 10)))%nat; [| lia].
  apply IH; [| lia]. apply Z.div_le_lower_bound; [lia |].
  rewrite Nat2Z.inj_succ, Z.pow_succ_r in Hn by lia. lia.
Qed.

Lemma pad2_length (n : Z) : 0 <= n < 100 -> String.length (pad 2 n) = 2%nat.
Proof.
  intros Hn. unfold pad. rewrite length_sla, length_app, repeat_length, length_rev.
  pose proof (digits_rev_len_le (S (Z.to_nat (Z.log2 n))) n 2 ltac:(cbn; lia) ltac:(lia)).
  lia.
Qed.

Lemma pad4_length (n : Z) : 1000 <= n < 10000 -> String.length (pad 4 n) = 4%nat.
Proof.
  intros Hn. unfold pad. rewrite length_sla, length_app, repeat_length, length_rev.
  pose proof (digits_rev_len_le (S (Z.to_nat (Z.log2 n))) n 4 ltac:(cbn; lia) ltac:(lia)).
  assert (Hl : (9 <= Z.to_nat (Z.log2 n))%nat).
  { assert (Z.log2 512 <= Z.log2 n) by (apply Z.log2_le_mono; lia).
    change (Z.log2 512) with 9 in *. lia. }
  pose proof (digits_rev_len_ge (S (Z.to_nat (Z.log2 n))) n 3 ltac:(cbn; lia) ltac:(lia)).
  lia.
Qed.

(** [_datetime_to_string] gives [None] exactly for the datetimes before
    1900 (they make Python 2's [strftime] raise) and otherwise a
    19-character ['YYYY-MM-DD HH:MM:SS'] string, for every year a
    [datetime] can have. *)
Theorem datetime_to_string_shape (dt : Z) :
  year dt <= 9999 ->
  (_datetime_to_string dt = None <-> year dt < 1900) /\
  (1900 <= year dt ->
   exists s, _datetime_to_string dt = Some s /\ String.length s = 19%nat).
Proof.
  intros Hy. unfold _datetime_to_string, strftime_ymdhms, year in *.
  pose proof (civil_md_bounds (dt / us_per_day)) as Hmd.
  assert (Hs : 0 <= (dt mod us_per_day) / us_per_s < 86400)
    by (unfold us_per_day, us_per_s; Z.div_mod_to_equations; lia).
  generalize dependent ((dt mod us_per_day) / us_per_s). intros secs Hs.
  destruct (civil_from_days (dt / us_per_day)) as [[y m] d]. cbn [fst snd] in Hmd.
  cbv beta iota zeta. split.
  - destruct (y <? 1900) eqn:E; [apply Z.ltb_lt in E | apply Z.ltb_ge in E];
      split; intros H; try reflexivity; try discriminate; lia.
  - intros Hy'. replace (y <? 1900) with false by (symmetry; apply Z.ltb_ge; lia).
    eexists. split; [reflexivity |].
    rewrite !str_length_app, pad4_length, !pad2_length by (Z.div_mod_to_equations; lia).
    reflexivity.
Qed.

Lemma datetime_to_string_shape_witness :
  year (dt_of_civil 2015 6 1 + 3723 * us_per_s) <= 9999 /\
  (_datetime_to_string (dt_of_civil 2015 6 1 + 3723 * us_per_s) = None <->
   year (dt_of_civil 2015 6 1 + 3723 * us_per_s) < 1900) /\
  (1900 <= year (dt_of_civil 2015 6 1 + 3723 * us_per_s) ->
   exists s, _datetime_to_string (dt_of_civil 2015 6 1 + 3723 * us_per_s) = Some s /\
             String.length s = 19%nat).
Proof.
  split; [vm_compute; discriminate |].
  apply datetime_to_string_shape. vm_compute. discriminate.
Defined.

(** ** [_normalize_val] *)

Section NormalizeExtra.
Variable now_us : Z.
Variable local_of_utc : Z -> res Z.
Variable FloatV : Type.
Variable float_of_text : list Z -> res FloatV.
Variable float_delta_us : Z -> FloatV -> res Z.
Variable float_of_py : pyfloat -> FloatV.
Local Abbreviation NV :=
  (_normalize_val now_us local_of_utc FloatV float_of_text float_delta_us float_of_py).

Lemma normalize_ts_cases (dt : Z) :
  plain (match _datetime_to_string dt with Some s => PStr s | None => PNone end) = true.
Proof. destruct (_datetime_to_string dt); reflexivity. Qed.

(** Whatever [_normalize_val] returns is plain data: [None], bools, ints,
    floats, text, and lists and dicts of such values; no [buffer], Foundation
    object, date or other object is left at any depth of lists and dict
    values. *)
Theorem normalize_val_plain : forall v k w, NV v k = Ok w -> plain w = true.
Proof.
  fix IH 1. intros v k w H.
  destruct v; cbn [_normalize_val] in H;
    destruct (hint_check k) as [hb | e]; cbn [bind] in H; try discriminate;
    match type of H with
    | context [match ?t with Some _ => _ | None => _ end] => destruct t as [dt |]
    end;
    try (injection H as <-; apply normalize_ts_cases); cbn [normalize_body] in H.
  - destruct (truthy PNone); injection H as <-; reflexivity.
  - injection H as <-. reflexivity.
  - injection H as <-. reflexivity.
  - injection H as <-. reflexivity.
  - destruct (all_ascii _); injection H as <-; reflexivity.
  - destruct (all_ascii cs); injection H as <-; reflexivity.
  - destruct (all_ascii _); injection H as <-; reflexivity.
  - destruct (truthy (PList l)); injection H as <-; reflexivity.
  - (* a dict *)
    revert w H. revert kv. fix IHl 1. intros [| [k' x] kv'] w H; cbn [bind] in H.
    + injection H as <-. reflexivity.
    + destruct (NV x k') as [y | e'] eqn:Ey; cbn [bind] in H; [| injection H as <-; reflexivity].
      match type of H with
      | context [bind ?T _] =>
          lazymatch T with
          | bind _ _ => fail
          | _ => destruct T as [ys | e''] eqn:Et
          end
      end; cbn [bind] in H; [| injection H as <-; reflexivity].
      pose proof (IHl kv' (PDict ys) ltac:(rewrite Et; reflexivity)) as Hp.
      injection H as <-. cbn [plain forallb snd] in Hp |- *.
      rewrite (IH x k' y Ey). exact Hp.
  - (* an NSArray *)
    revert w H. revert l. fix IHl 1. intros [| x l'] w H; cbn [bind] in H.
    + injection H as <-. reflexivity.
    + destruct (NV x PNone) as [y | e'] eqn:Ey; cbn [bind] in H; [| injection H as <-; reflexivity].
      match type of H with
      | context [bind ?T _] =>
          lazymatch T with
          | bind _ _ => fail
          | _ => destruct T as [ys | e''] eqn:Et
          end
      end; cbn [bind] in H; [| injection H as <-; reflexivity].
      pose proof (IHl l' (PList ys) ltac:(rewrite Et; reflexivity)) as Hp.
      injection H as <-. cbn [plain forallb] in Hp |- *.
      rewrite (IH x PNone y Ey). exact Hp.
  - (* an NSDictionary *)
    revert w H. revert kv. fix IHl 1. intros [| [k' x] kv'] w H; cbn [bind] in H.
    + injection H as <-. reflexivity.
    + destruct (NV x k') as [y | e'] eqn:Ey; cbn [bind] in H; [| injection H as <-; reflexivity].
      match type of H with
      | context [bind ?T _] =>
          lazymatch T with
          | bind _ _ => fail
          | _ => destruct T as [ys | e''] eqn:Et
          end
      end; cbn [bind] in H; [| injection H as <-; reflexivity].
      pose proof (IHl kv' (PDict ys) ltac:(rewrite Et; reflexivity)) as Hp.
      injection H as <-. cbn [plain forallb snd] in Hp |- *.
      rewrite (IH x k' y Ey). exact Hp.
  - injection H as <-. reflexivity.
  - injection H as <-. reflexivity.
  - destruct (truthy (PObj cls)); injection H as <-; reflexivity.
Qed.

(** A timestamp hint in the key only matters for numbers and text: for any
    other value, [_normalize_val] under a key it accepts gives what it gives
    under no key at all. *)
Theorem normalize_hint_needs_number_or_text (v k : pyval) (b : bool) :
  hint_check k = Ok b -> num_arg FloatV float_of_py v = None -> text_codes v = None ->
  NV v k = NV v PNone.
Proof.
  intros Hk Hn Ht. destruct v; try discriminate; cbn [_normalize_val]; rewrite Hk;
    destruct b; reflexivity.
Qed.

End NormalizeExtra.

Lemma normalize_val_plain_witness :
  _normalize_val (dt_of_civil 2080 1 1) utc Z float_int float_int_delta float_py_int
    (PNSArray [PBuffer "ab"; PNSDate 5; PNSDict [(PStr "k", PNSData "xyz")]]) PNone =
    Ok (PList [PUni [25185]; PStr "<NSDate 5>"; PDict [(PStr "k", PStr "<NSData bytes:3>")]]) /\
  plain (PList [PUni [25185]; PStr "<NSDate 5>"; PDict [(PStr "k", PStr "<NSData bytes:3>")]]) = true.
Proof.
  split; [vm_compute; reflexivity |].
  apply (normalize_val_plain (dt_of_civil 2080 1 1) utc Z float_int float_int_delta float_py_int
           (PNSArray [PBuffer "ab"; PNSDate 5; PNSDict [(PStr "k", PNSData "xyz")]]) PNone).
  vm_compute. reflexivity.
Defined.

Lemma normalize_hint_needs_number_or_text_witness :
  hint_check (PStr "mtime") = Ok true /\ num_arg Z float_py_int (PList [PInt 1]) = None /\
  text_codes (PList [PInt 1]) = None /\
  _normalize_val (dt_of_civil 2080 1 1) utc Z float_int float_int_delta float_py_int (PList [PInt 1]) (PStr "mtime") =
  _normalize_val (dt_of_civil 2080 1 1) utc Z float_int float_int_delta float_py_int (PList [PInt 1]) PNone.
Proof.
  split; [reflexivity | split; [reflexivity | split; [reflexivity |]]].
  apply (normalize_hint_needs_number_or_text (dt_of_civil 2080 1 1) utc Z float_int float_int_delta float_py_int
           (PList [PInt 1]) (PStr "mtime") true); reflexivity.
Defined.

(** ** [Logger]: what logging leaves alone *)

Section Stable.
Variable R : LState -> LState -> Prop.
Hypothesis R_refl : forall st, R st st.
Hypothesis R_trans : forall a b c, R a b -> R b c -> R a c.

Lemma stable_ret {A : Type} (a : A) : stable R (mret a).
Proof. intros st. apply R_refl. Qed.

Lemma stable_raise {A : Type} (e : exn) : stable R (@raise A e).
Proof. intros st. apply R_refl. Qed.

Lemma stable_lift {A : Type} (r : res A) : stable R (lift r).
Proof. intros st. apply R_refl. Qed.

Lemma stable_bind {A B : Type} (m : M A) (k : A -> M B) :
  stable R m -> (forall a, stable R (k a)) -> stable R (mbind m k).
Proof.
  intros Hm Hk st. unfold mbind. pose proof (Hm st) as H1.
  destruct (m st) as [[a | e] st']; cbn [snd] in *; [| exact H1].
  exact (R_trans _ _ _ H1 (Hk a st')).
Qed.

Lemma stable_try {A : Type} (m : M A) (h : exn -> M A) :
  stable R m -> (forall e, stable R (h e)) -> stable R (try_ m h).
Proof.
  intros Hm Hh st. unfold try_. pose proof (Hm st) as H1.
  destruct (m st) as [[a | e] st']; cbn [snd] in *; [exact H1 |].
  exact (R_trans _ _ _ H1 (Hh e st')).
Qed.

Lemma stable_for_each {A : Type} (l : list A) (f : A -> M unit) :
  (forall x, stable R (f x)) -> stable R (for_each l f).
Proof.
  intros Hf. induction l as [| x l IH]; cbn [for_each];
    [apply stable_ret | apply stable_bind; [apply Hf | intros _; exact IH]].
Qed.

(** [log_dict] keeps [R] when its elementary steps do. *)
Lemma stable_log_dict :
  (forall r, stable R (heap_get r)) -> stable R get_extras ->
  (forall r d, stable R (heap_put r d)) -> (forall d, stable R (alloc d)) ->
  (forall w, stable R (out_call w)) -> stable R incr_lines ->
  (forall s, stable R (err_write s)) ->
  forall fuel r, stable R (log_dict fuel r).
Proof.
  intros Hg Hx Hp Ha Ho Hi Hw. induction fuel as [| f IH]; intros r; cbn [log_dict];
    [apply stable_raise |].
  apply stable_bind; [apply Hg | intros record].
  apply stable_bind; [exact Hx | intros ex0].
  apply stable_bind; [apply Hp | intros _].
  apply stable_try.
  - apply stable_bind; [apply Hg | intros d].
    apply stable_bind; [apply stable_lift | intros s].
    apply stable_bind; [apply Ho | intros _].
    apply stable_bind; [apply Ho | intros _].
    apply stable_bind; [apply Ho | intros _]. exact Hi.
  - intros e. unfold log_exception_k, log_error_k.
    apply stable_bind; [apply Ha | intros r'].
    apply stable_bind; [apply IH | intros _].
    apply stable_bind; [exact Hx | intros ex1].
    apply stable_bind; [apply Hw | intros _].
    apply stable_bind; [apply Hw | intros _]. apply Hw.
Qed.

End Stable.

Lemma same_extras_log_dict (fuel r : nat) : stable same_extras (log_dict fuel r).
Proof.
  apply stable_log_dict; unfold same_extras; [reflexivity | congruence | ..];
    intros; intros st; try reflexivity.
  - unfold heap_get. destruct (nth_error _ _); reflexivity.
  - unfold out_call. destruct (tape st) as [| [|] t]; reflexivity.
Qed.

Lemma same_extras_refl (st : LState) : same_extras st st.
Proof. reflexivity. Qed.

Lemma same_extras_trans (a b c : LState) : same_extras a b -> same_extras b c -> same_extras a c.
Proof. unfold same_extras. congruence. Qed.

Lemma same_extras_log_exception (fuel : nat) (e : exn) (message : string) :
  stable same_extras (log_exception fuel e message).
Proof.
  unfold log_exception, log_exception_k, log_error_k.
  apply (stable_bind _ same_extras_trans); [intros st; reflexivity | intros r].
  apply (stable_bind _ same_extras_trans); [apply same_extras_log_dict | intros _].
  repeat (apply (stable_bind _ same_extras_trans); [intros st; reflexivity | intros ?]).
  intros st. reflexivity.
Qed.

(** Logging never changes [Logger.Extra.extras]: neither [log_dict] (its
    own failures included) nor [log_exception] sets or removes an extra. *)
Theorem logging_keeps_extras (fuel r : nat) (e : exn) (message : string) (st : LState) :
  extras (snd (log_dict fuel r st)) = extras st /\
  extras (snd (log_exception fuel e message st)) = extras st.
Proof. split; [apply same_extras_log_dict | apply same_extras_log_exception]. Qed.

Lemma log_grows_same (st st' : LState) :
  out st' = out st -> lines_written st' = lines_written st -> errout st' = errout st ->
  log_grows st st'.
Proof.
  intros Ho Hl He. split; [exists []; rewrite app_nil_r; exact Ho |].
  split; [lia | exists []; rewrite app_nil_r; exact He].
Qed.

Lemma log_grows_refl (st : LState) : log_grows st st.
Proof. apply log_grows_same; reflexivity. Qed.

Lemma log_grows_trans (a b c : LState) : log_grows a b -> log_grows b c -> log_grows a c.
Proof.
  intros [[w1 H1] [H2 [u1 H3]]] [[w2 H4] [H5 [u2 H6]]].
  split; [exists (w1 ++ w2); rewrite H4, H1; symmetry; apply app_assoc |].
  split; [lia | exists (u1 ++ u2); rewrite H6, H3; symmetry; apply app_assoc].
Qed.

Lemma grows_log_dict (fuel r : nat) : stable log_grows (log_dict fuel r).
Proof.
  apply (stable_log_dict log_grows log_grows_refl log_grows_trans); intros; intros st;
    try (apply log_grows_same; reflexivity).
  - unfold heap_get. destruct (nth_error _ _); apply log_grows_refl.
  - unfold out_call. destruct (tape st) as [| [|] t]; cbn [snd].
    + destruct w; [| apply log_grows_same; reflexivity].
      split; [exists [s]; reflexivity | split; [cbn; lia | exists []; cbn; rewrite app_nil_r; reflexivity]].
    + apply log_grows_same; reflexivity.
    + destruct w; [| apply log_grows_same; reflexivity].
      split; [exists [s]; reflexivity | split; [cbn; lia | exists []; cbn; rewrite app_nil_r; reflexivity]].
  - split; [exists []; cbn; rewrite app_nil_r; reflexivity | split; [cbn; lia | exists []; cbn; rewrite app_nil_r; reflexivity]].
  - split; [exists []; cbn; rewrite app_nil_r; reflexivity | split; [cbn; lia | exists [s]; reflexivity]].
Qed.

(** Logging only appends: after [log_dict] or [log_exception], whatever
    had been written to the output file and to [stderr] is still there,
    followed by what the call wrote, and [lines_written] has not
    decreased. *)
Theorem logging_only_appends (fuel r : nat) (e : exn) (message : string) (st : LState) :
  log_grows st (snd (log_dict fuel r st)) /\
  log_grows st (snd (log_exception fuel e message st)).
Proof.
  split; [apply grows_log_dict |].
  revert st. unfold log_exception, log_exception_k, log_error_k.
  apply (stable_bind _ log_grows_trans); [intros st; apply log_grows_same; reflexivity | intros r'].
  apply (stable_bind _ log_grows_trans); [apply grows_log_dict | intros _].
  apply (stable_bind _ log_grows_trans); [intros st; apply log_grows_refl | intros ex0].
  repeat (apply (stable_bind _ log_grows_trans);
          [intros st; split; [exists []; cbn; rewrite app_nil_r; reflexivity |
                              split; [cbn; lia | eexists; reflexivity]] | intros _]).
  intros st; split; [exists []; cbn; rewrite app_nil_r; reflexivity |
                     split; [cbn; lia | eexists; reflexivity]].
Qed.

(** ** [Logger.Extra] scopes, [collect] and [_foreach_homedir] *)

Lemma dict_del_absent (e : list (pyval * pyval)) (k : pyval) :
  dict_get e k = None -> dict_del e k = Exc KeyError.
Proof.
  induction e as [| [k' v'] e IH]; cbn; [reflexivity |].
  destruct (key_eqb k' k); [discriminate |]. intros H. rewrite IH by exact H. reflexivity.
Qed.

Lemma with_extra_scope (key val : pyval) (body : M unit) (st : LState) :
  knf key <> None -> dict_get (extras st) key = None -> stable same_extras body ->
  extras (snd (with_extra key val body st)) = extras st /\
  fst (with_extra key val body st) = fst (body (set_extras (dict_set (extras st) key val) st)).
Proof.
  intros Hk Ha Hb. unfold with_extra, mbind, extra_enter.
  pose proof (Hb (set_extras (dict_set (extras st) key val) st)) as He.
  unfold same_extras in He.
  destruct (body (set_extras (dict_set (extras st) key val) st)) as [[[] | x] st2].
  all: cbn [snd fst extras set_extras] in *; unfold extra_exit; rewrite He;
       cbn [extras set_extras]; rewrite dict_del_set, dict_del_absent by assumption;
       cbn; split; reflexivity.
Qed.

(** [with Logger.Extra(key, val): body] on a key not yet set, around a
    body that leaves the extras as it found them, puts the extras back as
    they were before the [with], whatever the body returns or raises; the
    outcome is the body's, run with [key] set to [val]. *)
Theorem with_extra_restores_extras (key val : pyval) (body : M unit) (st : LState) :
  knf key <> None -> dict_get (extras st) key = None -> stable same_extras body ->
  extras (snd (with_extra key val body st)) = extras st /\
  fst (with_extra key val body st) = fst (body (set_extras (dict_set (extras st) key val) st)).
Proof. apply with_extra_scope. Qed.

Lemma with_extra_restores_extras_witness :
  knf (PStr "osxcollector_username") <> None /\
  dict_get (extras init) (PStr "osxcollector_username") = None /\
  stable same_extras (log_literal 3 [(PStr "a", PInt 1)]) /\
  extras (snd (with_extra (PStr "osxcollector_username") (PStr "alice")
                 (log_literal 3 [(PStr "a", PInt 1)]) init)) = extras init /\
  fst (with_extra (PStr "osxcollector_username") (PStr "alice")
         (log_literal 3 [(PStr "a", PInt 1)]) init) =
  fst (log_literal 3 [(PStr "a", PInt 1)]
         (set_extras (dict_set (extras init) (PStr "osxcollector_username") (PStr "alice")) init)).
Proof.
  assert (Hs : stable same_extras (log_literal 3 [(PStr "a", PInt 1)])).
  { apply (stable_bind _ same_extras_trans); [intros s; reflexivity | intros r].
    apply same_extras_log_dict. }
  split; [discriminate | split; [reflexivity | split; [exact Hs |]]].
  apply with_extra_restores_extras; [discriminate | reflexivity | exact Hs].
Defined.

Lemma for_each_ext_in {A : Type} (l : list A) (f g : A -> M unit) :
  (forall x, In x l -> f x = g x) -> for_each l f = for_each l g.
Proof.
  induction l as [| x l IH]; intros H; cbn [for_each]; [reflexivity |].
  rewrite (H x (or_introl eq_refl)), IH by (intros y Hy; apply H; right; exact Hy).
  reflexivity.
Qed.

Lemma for_each_invariant {A : Type} (P : LState -> Prop) (l : list A) (f : A -> M unit) :
  (forall x st, In x l -> P st -> P (snd (f x st))) ->
  forall st, P st -> P (snd (for_each l f st)).
Proof.
  induction l as [| x l IH]; intros Hf st Hst; cbn [for_each]; [exact Hst |].
  unfold mbind. pose proof (Hf x st (or_introl eq_refl) Hst) as H1.
  destruct (f x st) as [[] st']; cbn [snd] in *; [| exact H1].
  apply IH; [intros y s Hy; apply Hf; right; exact Hy | exact H1].
Qed.

(** [collect] with no section list, an empty one or one naming every
    section runs every section: all three behave as [collect()]. *)
Theorem collect_all_sections (fuel : nat) (section_list : list string)
    (method : string -> M unit) :
  section_list = [] \/ incl section_names section_list ->
  collect fuel (Some section_list) method = collect fuel None method.
Proof.
  intros H. unfold collect. apply for_each_ext_in. intros n Hn.
  unfold collect_section. f_equal.
  replace (skip_section (Some section_list) n) with false; [reflexivity |].
  unfold skip_section. destruct H as [-> | H]; [reflexivity |].
  destruct section_list as [| s l]; [reflexivity |].
  symmetry. apply negb_false_iff, existsb_exists. exists n.
  split; [apply H, Hn | apply String.eqb_refl].
Qed.

Lemma collect_all_sections_witness :
  (section_names = [] \/ incl section_names section_names) /\
  collect 3 (Some section_names) (fun _ => mret tt) = collect 3 None (fun _ => mret tt).
Proof.
  split; [right; apply incl_refl |].
  apply collect_all_sections. right. apply incl_refl.
Defined.

(** A section left out of a non-empty section list is never run: the
    collection methods of such sections have no influence on [collect]. *)
Theorem collect_skips_unlisted (fuel : nat) (section_list : list string)
    (method1 method2 : string -> M unit) :
  section_list <> [] ->
  (forall name, In name section_list -> method1 name = method2 name) ->
  collect fuel (Some section_list) method1 = collect fuel (Some section_list) method2.
Proof.
  intros Hne H. unfold collect. apply for_each_ext_in. intros n _.
  unfold collect_section. f_equal. unfold skip_section.
  destruct section_list as [| s l]; [contradiction |].
  destruct (existsb (String.eqb n) (s :: l)) eqn:E; cbn [negb]; [| reflexivity].
  apply existsb_exists in E. destruct E as [n' [Hn' Heq]].
  apply String.eqb_eq in Heq. subst n'. rewrite (H n Hn'). reflexivity.
Qed.

Lemma collect_skips_unlisted_witness :
  ["kext"%string] <> [] /\
  (forall name, In name ["kext"%string] ->
     (fun _ : string => mret tt) name =
     (fun n : string => if String.eqb n "kext" then mret tt else raise IOError) name) /\
  collect 3 (Some ["kext"%string]) (fun _ => mret tt) =
  collect 3 (Some ["kext"%string]) (fun n => if String.eqb n "kext" then mret tt else raise IOError).
Proof.
  assert (H : forall name, In name ["kext"%string] ->
     (fun _ : string => mret tt) name =
     (fun n : string => if String.eqb n "kext" then mret tt else raise IOError) name)
    by (intros name [<- | []]; reflexivity).
  split; [discriminate | split; [exact H |]].
  apply collect_skips_unlisted; [discriminate | exact H].
Defined.

(** The [Extra] scope of each section of [collect] is closed again: when
    no ['osxcollector_section'] extra is set beforehand and the collection
    methods leave the extras alone, the extras after [collect] are those
    before it, also when a section fails or [collect] stops on an
    exception. *)
Theorem collect_restores_extras (fuel : nat) (section_list : option (list string))
    (method : string -> M unit) (st : LState) :
  dict_get (extras st) (PStr "osxcollector_section") = None ->
  (forall name, stable same_extras (method name)) ->
  extras (snd (collect fuel section_list method st)) = extras st.
Proof.
  intros Ha Hm. unfold collect.
  apply (for_each_invariant (fun s => extras s = extras st)); [| reflexivity].
  intros n s _ Hs. unfold collect_section.
  assert (Hb : stable same_extras
                 (if skip_section section_list n then mret tt
                  else try_ (method n) (fun section_e => log_exception fuel section_e "failed section"))).
  { destruct (skip_section section_list n); [intros x; reflexivity |].
    apply (stable_try _ same_extras_trans); [apply Hm | intros e; apply same_extras_log_exception]. }
  rewrite (proj1 (with_extra_scope (PStr "osxcollector_section") (PStr n) _ s
                    ltac:(discriminate) ltac:(rewrite Hs; exact Ha) Hb)).
  exact Hs.
Qed.

Lemma collect_restores_extras_witness :
  dict_get (extras init) (PStr "osxcollector_section") = None /\
  (forall name, stable same_extras ((fun _ : string => @raise unit IOError) name)) /\
  extras (snd (collect 3 None (fun _ => raise IOError) init)) = extras init.
Proof.
  assert (Hm : forall name, stable same_extras ((fun _ : string => @raise unit IOError) name))
    by (intros name s; reflexivity).
  split; [reflexivity | split; [exact Hm |]].
  apply collect_restores_extras; [reflexivity | exact Hm].
Defined.

(** The wrapper of [_foreach_homedir] closes its ['osxcollector_username']
    scope for each home directory: with no such extra set beforehand and a
    decorated method that leaves the extras alone, the extras afterwards
    are those before it. *)
Theorem foreach_homedir_restores_extras (fuel : nat) (homedirs : list HomeDir)
    (func : HomeDir -> M unit) (st : LState) :
  dict_get (extras st) (PStr "osxcollector_username") = None ->
  (forall homedir, stable same_extras (func homedir)) ->
  extras (snd (_foreach_homedir fuel homedirs func st)) = extras st.
Proof.
  intros Ha Hf. unfold _foreach_homedir.
  apply (for_each_invariant (fun s => extras s = extras st)); [| reflexivity].
  intros h s _ Hs.
  assert (Hb : stable same_extras (try_ (func h) (fun e => log_exception fuel e ""))).
  { apply (stable_try _ same_extras_trans); [apply Hf | intros e; apply same_extras_log_exception]. }
  rewrite (proj1 (with_extra_scope (PStr "osxcollector_username") (PStr (user_name h)) _ s
                    ltac:(discriminate) ltac:(rewrite Hs; exact Ha) Hb)).
  exact Hs.
Qed.

Lemma foreach_homedir_restores_extras_witness :
  dict_get (extras init) (PStr "osxcollector_username") = None /\
  (forall homedir, stable same_extras ((fun _ : HomeDir => log_literal 3 []) homedir)) /\
  extras (snd (_foreach_homedir 3 [mkHomeDir "alice" "/Users/alice"; mkHomeDir "bob" "/Users/bob"]
                 (fun _ => log_literal 3 []) init)) = extras init.
Proof.
  assert (Hf : forall homedir, stable same_extras ((fun _ : HomeDir => log_literal 3 []) homedir)).
  { intros homedir. apply (stable_bind _ same_extras_trans); [intros s; reflexivity | intros r].
    apply same_extras_log_dict. }
  split; [reflexivity | split; [exact Hf |]].
  apply foreach_homedir_restores_extras; [reflexivity | exact Hf].
Defined.
